(** * struct-create: the schema-to-struct generator of main.go

    A shallow embedding of [goType], [formatName] and [writeStructs]
    together with the properties of the type mapper, the identifier
    formatter and the struct emitter.

    Go strings are byte sequences: they are modelled by [string], whose
    characters are the 256 byte values; [String.length] is Go's [len]. *)

From Stdlib Require Import Ascii NArith.
From stdpp Require Import gmap strings list fin_maps pretty.

(** ** Data model *)

(** [sql.NullInt64] *)
Record NullInt64 := { Int64 : Z; Valid : bool }.

Record ColumnSchema := {
  TableName : string;
  ColumnName : string;
  IsNullable : string;
  DataType : string;
  CharacterMaximumLength : NullInt64;
  NumericPrecision : NullInt64;
  NumericScale : NullInt64;
  ColumnType : string;
  ColumnKey : string
}.

Record Configuration := {
  Host : string;
  Port : Z;
  DbUser : string;
  DbPassword : string;
  DbName : string;
  PkgName : string;
  TagLabel : string
}.

Definition defaults : Configuration :=
  {| Host := "localhost"; Port := 3306; DbUser := "db_user";
     DbPassword := "db_pw"; DbName := "bd_name";
     PkgName := "DbStructs"; TagLabel := "db" |}.

(** A Go [error] value, identified with its message; [None] is [nil]. *)
Definition error := string.

(** [errors.New] *)
Definition errors_New (msg : string) : error := msg.

(** ** The type mapper *)

(** [goType] returns the Go type, the required import and the error. The
    [switch] on [col.DataType] compares whole strings, case by case from the
    top; a data type matching no case leaves [gt] empty. *)
Definition goType (col : ColumnSchema) : string * string * option error :=
  let requiredImport :=
    if bool_decide (IsNullable col = "YES") then "database/sql" else "" in
  let '(gt, requiredImport) :=
    if bool_decide (DataType col ∈ ["varchar"; "enum"; "text"; "longtext"; "mediumtext"]) then
      (if bool_decide (IsNullable col = "YES") then "sql.NullString" else "string",
       requiredImport)
    else if bool_decide (DataType col ∈ ["blob"; "mediumblob"; "longblob"]) then
      ("[]byte", requiredImport)
    else if bool_decide (DataType col ∈ ["date"; "time"; "datetime"; "timestamp"]) then
      ("time.Time", "time")
    else if bool_decide (DataType col ∈ ["tinyint"; "smallint"; "int"; "mediumint"; "bigint"]) then
      (if bool_decide (IsNullable col = "YES") then "sql.NullInt64" else "int64",
       requiredImport)
    else if bool_decide (DataType col ∈ ["float"; "decimal"; "double"]) then
      (if bool_decide (IsNullable col = "YES") then "sql.NullFloat64" else "float64",
       requiredImport)
    else ("", requiredImport) in
  if bool_decide (gt = "") then
    let n := TableName col +:+ "." +:+ ColumnName col in
    ("", "", Some (errors_New ("No compatible datatype for " +:+ n +:+ " found")))
  else (gt, requiredImport, None).

(** The families of the mapping table, as the specification lists them. *)
Module Table.
Definition string_family : list string :=
  ["varchar"; "enum"; "text"; "longtext"; "mediumtext"].
Definition blob_family : list string :=
  ["blob"; "mediumblob"; "longblob"].
Definition temporal_family : list string :=
  ["date"; "time"; "datetime"; "timestamp"].
Definition integer_family : list string :=
  ["tinyint"; "smallint"; "int"; "mediumint"; "bigint"].
Definition float_family : list string :=
  ["float"; "decimal"; "double"].
Definition all : list string :=
  string_family ++ blob_family ++ temporal_family ++ integer_family ++ float_family.

(** The non-nullable type of a catalog data type, row by row. *)
Definition bare_type (dataType : string) : string :=
  if bool_decide (dataType ∈ string_family) then "string"
  else if bool_decide (dataType ∈ blob_family) then "[]byte"
  else if bool_decide (dataType ∈ temporal_family) then "time.Time"
  else if bool_decide (dataType ∈ integer_family) then "int64"
  else if bool_decide (dataType ∈ float_family) then "float64"
  else "".

(** The rows whose nullable type is a wrapper: family, bare type, wrapper. *)
Definition wrapped_rows : list (list string * string * string) :=
  [ (string_family, "string", "sql.NullString");
    (integer_family, "int64", "sql.NullInt64");
    (float_family, "float64", "sql.NullFloat64") ].
End Table.

(** A column with the given names, nullability and data type; the remaining
    catalog fields play no part in the generator. *)
Definition column (table name nullable dataType : string) : ColumnSchema :=
  {| TableName := table; ColumnName := name; IsNullable := nullable;
     DataType := dataType;
     CharacterMaximumLength := {| Int64 := 0; Valid := false |};
     NumericPrecision := {| Int64 := 0; Valid := false |};
     NumericScale := {| Int64 := 0; Valid := false |};
     ColumnType := dataType; ColumnKey := "" |}.

(** ** The identifier formatter *)

(** [strings.Split(s, sep)] for a separator [sep] of one byte: the pieces of
    [s] between the occurrences of [sep]; the empty string gives one empty
    piece. *)
Fixpoint Split (s : string) (sep : ascii) : list string :=
  match s with
  | EmptyString => [EmptyString]
  | String c s' =>
      if bool_decide (c = sep) then EmptyString :: Split s' sep
      else match Split s' sep with
           | p :: ps => String c p :: ps
           | [] => [String c EmptyString]
           end
  end.

(** [strings.HasPrefix] *)
Fixpoint HasPrefix (s prefix : string) : bool :=
  match prefix, s with
  | EmptyString, _ => true
  | String _ _, EmptyString => false
  | String a prefix', String b s' => bool_decide (a = b) && HasPrefix s' prefix'
  end.

(** [s[n:]] for [n <= len(s)] *)
Fixpoint drop_bytes (n : nat) (s : string) : string :=
  match n, s with
  | O, _ => s
  | S n', String _ s' => drop_bytes n' s'
  | S _, EmptyString => EmptyString
  end.

(** [strings.Replace(s, old, new, 1)] for a non-empty [old]: the leftmost
    occurrence of [old] in [s] is replaced by [new]; without an occurrence
    [s] is returned as it is. *)
Fixpoint Replace (s old new : string) : string :=
  if HasPrefix s old then new +:+ drop_bytes (String.length old) s
  else match s with
       | EmptyString => EmptyString
       | String c s' => String c (Replace s' old new)
       end.

Definition byte (n : N) : ascii := ascii_of_N n.

(** [utf8.EncodeRune]: the UTF-8 encoding of a code point, which is what the
    conversion [string(r)] of an integer yields; surrogates and values past
    U+10FFFF become U+FFFD. *)
Definition EncodeRune (r : N) : string :=
  if (r <? 0x80)%N then String (byte r) EmptyString
  else if (r <? 0x800)%N then
    String (byte (N.lor 0xC0 (N.shiftr r 6)))
      (String (byte (N.lor 0x80 (N.land r 0x3F))) EmptyString)
  else
    let r := if ((0xD800 <=? r) && (r <=? 0xDFFF) || (0x10FFFF <? r))%N
             then 0xFFFD%N else r in
    if (r <? 0x10000)%N then
      String (byte (N.lor 0xE0 (N.shiftr r 12)))
        (String (byte (N.lor 0x80 (N.land (N.shiftr r 6) 0x3F)))
          (String (byte (N.lor 0x80 (N.land r 0x3F))) EmptyString))
    else
      String (byte (N.lor 0xF0 (N.shiftr r 18)))
        (String (byte (N.lor 0x80 (N.land (N.shiftr r 12) 0x3F)))
          (String (byte (N.lor 0x80 (N.land (N.shiftr r 6) 0x3F)))
            (String (byte (N.lor 0x80 (N.land r 0x3F))) EmptyString))).

(** [unicode.ToUpper] on the code points below U+0100, the only ones a byte
    converts to: the ASCII letters, the Latin-1 letters that have a capital
    32 below them, the micro sign (capital U+039C) and y with diaeresis
    (capital U+0178); every other code point of that range is its own
    image. *)
Definition unicode_ToUpper (r : N) : N :=
  if ((0x61 <=? r) && (r <=? 0x7A))%N then (r - 32)%N
  else if (r =? 0xB5)%N then 0x39C%N
  else if ((0xE0 <=? r) && (r <=? 0xF6) || (0xF8 <=? r) && (r <=? 0xFE))%N
       then (r - 32)%N
  else if (r =? 0xFF)%N then 0x178%N
  else r.

(** [string(b)] for a byte [b]: the UTF-8 encoding of the code point whose
    number is the byte's value, two bytes long from 0x80 on. *)
Definition string_of_byte (b : ascii) : string := EncodeRune (N_of_ascii b).

(** [strings.ToUpper(string(b))]: the argument holds one code point, which
    [ToUpper] maps through [unicode.ToUpper] and encodes again. *)
Definition ToUpper_of_byte (b : ascii) : string :=
  EncodeRune (unicode_ToUpper (N_of_ascii b)).

(** A computation that can end in a run-time panic or in [log.Fatal]. *)
Inductive Outcome (A : Type) : Type :=
  | Ok (a : A)
  | Fatal (e : error)
  | Panic.
Arguments Ok {A} a.
Arguments Fatal {A} e.
Arguments Panic {A}.

Definition bind {A B} (m : Outcome A) (k : A -> Outcome B) : Outcome B :=
  match m with
  | Ok a => k a
  | Fatal e => Fatal e
  | Panic => Panic
  end.

Notation "'do' x <- m ;; k" := (bind m (fun x => k))
  (at level 10, x name, m at level 99, k at level 200, only parsing).

(** One turn of the loop of [formatName]: [p[0]] panics with an index out of
    range when the part [p] is empty. *)
Definition formatPart (p : string) : Outcome string :=
  match p with
  | EmptyString => Panic
  | String b _ => Ok (Replace p (string_of_byte b) (ToUpper_of_byte b))
  end.

Fixpoint formatParts (parts : list string) (newName : string) : Outcome string :=
  match parts with
  | [] => Ok newName
  | p :: parts' =>
      do q <- formatPart p ;;
      formatParts parts' (newName +:+ q)
  end.

Definition formatName (name : string) : Outcome string :=
  formatParts (Split name "_"%char) EmptyString.

(** ** The struct emitter *)

Definition nl : string := String (byte 10) EmptyString.
Definition tab : string := String (byte 9) EmptyString.
Definition quote : string := String (byte 34) EmptyString.
Definition backquote : string := String (byte 96) EmptyString.

(** The variables of [writeStructs] that live across the turns of its loop. *)
Record State := {
  buffer : string;
  currentTable : string;
  neededImports : gmap string bool
}.

Section Generator.

(** The package-level [config]. *)
Variable config : Configuration.

(** The [-out] flag and the file system's answer to [os.Create]: the error
    it returns for a path, [None] when the file is created. *)
Variable output : string.
Variable os_Create : string -> option error.

(** The order in which a [range] over a map visits the keys. Go leaves it
    to the run time, which visits every key once: the properties below
    that depend on it take [rangeOrder m] to be a permutation of the keys
    of [m]. *)
Variable rangeOrder : gmap string bool -> list string.

(** The body of the loop over [schemas], for the column [cs]. *)
Definition loopBody (st : State) (cs : ColumnSchema) : Outcome State :=
  do buffer1 <-
    (if bool_decide (TableName cs ≠ currentTable st) then
       let b := if bool_decide (currentTable st ≠ "")
                then buffer st +:+ "}" +:+ nl +:+ nl
                else buffer st in
       do name <- formatName (TableName cs) ;;
       Ok (b +:+ "type " +:+ name +:+ " struct{" +:+ nl)
     else Ok (buffer st)) ;;
  let '(gt, requiredImport, err) := goType cs in
  let needed := if bool_decide (requiredImport ≠ "")
                then <[requiredImport := true]> (neededImports st)
                else neededImports st in
  match err with
  | Some e => Fatal e
  | None =>
      do field <- formatName (ColumnName cs) ;;
      let b := buffer1 +:+ tab +:+ field +:+ " " +:+ gt in
      let b := if (0 <? String.length (TagLabel config))%nat
               then b +:+ tab +:+ backquote +:+ TagLabel config +:+ ":"
                      +:+ quote +:+ ColumnName cs +:+ quote +:+ backquote
               else b in
      Ok {| buffer := b +:+ nl;
            currentTable := TableName cs;
            neededImports := needed |}
  end.

(** The state before the first turn of the loop. *)
Definition initialState : State :=
  {| buffer := ""; currentTable := ""; neededImports := ∅ |}.

Fixpoint loop (schemas : list ColumnSchema) (st : State) : Outcome State :=
  match schemas with
  | [] => Ok st
  | cs :: schemas' => do st' <- loopBody st cs ;; loop schemas' st'
  end.

(** The header section: the package clause and, for a non-empty map, the
    import block with one line per key, in the order of the [range]. *)
Definition headerSection (needed : gmap string bool) : string :=
  let header := "package " +:+ PkgName config +:+ nl +:+ nl in
  if (0 <? size needed)%nat then
    let header := header +:+ "import (" +:+ nl in
    let header :=
      foldl (fun h imp => h +:+ tab +:+ quote +:+ imp +:+ quote +:+ nl)
            header (rangeOrder needed) in
    header +:+ ")" +:+ nl +:+ nl
  else header.

(** [writeStructs] returns the file length and, next to it, the text handed
    to the sink ([None] when nothing is written). [log.Fatal] ends the
    process before anything reaches the sink, and so does a panic. *)
Definition writeStructs (schemas : list ColumnSchema) : Outcome (nat * option string) :=
  do st <- loop schemas initialState ;;
  let buffer := buffer st +:+ "}" in
  let header := headerSection (neededImports st) +:+ buffer in
  let fileLength := String.length header in
  if (0 <? fileLength)%nat then
    if bool_decide (output ≠ "-") then
      match os_Create output with
      | Some e => Fatal e
      | None => Ok (fileLength, Some header)
      end
    else Ok (fileLength, Some header)
  else Ok (fileLength, None).

End Generator.

(** The iteration order that follows the map's own enumeration. *)
Definition listOrder (m : gmap string bool) : list string := (map_to_list m).*1.

Definition users_orders : list ColumnSchema :=
  [ column "users" "id" "NO" "int";
    column "users" "name" "YES" "varchar";
    column "orders" "id" "NO" "int" ].

(** [with_IsNullable n col] is [col] with its nullability flag set to [n]. *)
Definition with_IsNullable (n : string) (col : ColumnSchema) : ColumnSchema :=
  {| TableName := TableName col; ColumnName := ColumnName col;
     IsNullable := n; DataType := DataType col;
     CharacterMaximumLength := CharacterMaximumLength col;
     NumericPrecision := NumericPrecision col;
     NumericScale := NumericScale col;
     ColumnType := ColumnType col; ColumnKey := ColumnKey col |}.

(** The error of [goType] for a column, as [errors.New] builds it. *)
Definition unsupported (col : ColumnSchema) : error :=
  "No compatible datatype for "
    +:+ (TableName col +:+ "." +:+ ColumnName col) +:+ " found".

(** ** The specification's side *)

(** The formatter as the specification words it: split on underscores, put
    the first character of each segment in upper case, leave the rest of the
    segment alone, and join the segments without a separator. *)
Module Spec.
Definition upper (c : ascii) : ascii :=
  if ((0x61 <=? N_of_ascii c) && (N_of_ascii c <=? 0x7A))%N
  then ascii_of_N (N_of_ascii c - 32)
  else c.

Definition capitalize (segment : string) : string :=
  match segment with
  | EmptyString => EmptyString
  | String c rest => String (upper c) rest
  end.

Definition join (segments : list string) : string :=
  foldr String.append EmptyString segments.

Definition formatName (name : string) : string :=
  join (capitalize <$> Split name "_"%char).

(** The artifact format: the annotation of a field, present for a
    non-empty tag label only, the line of a field, the text that closes
    the open type block and opens the one of a new table, and the import
    block, present for a non-empty list of imports only. *)
Definition annotation (tagLabel columnName : string) : string :=
  if bool_decide (tagLabel = "") then ""
  else tab +:+ backquote +:+ tagLabel +:+ ":"
         +:+ quote +:+ columnName +:+ quote +:+ backquote.

Definition fieldLine (tagLabel field gt columnName : string) : string :=
  tab +:+ field +:+ " " +:+ gt +:+ annotation tagLabel columnName +:+ nl.

Definition opener (prev table name : string) : string :=
  if bool_decide (table = prev) then ""
  else (if bool_decide (prev = "") then "" else "}" +:+ nl +:+ nl)
         +:+ "type " +:+ name +:+ " struct{" +:+ nl.

Definition importLine (imp : string) : string :=
  tab +:+ quote +:+ imp +:+ quote +:+ nl.

Definition importBlock (imports : list string) : string :=
  match imports with
  | [] => ""
  | _ => "import (" +:+ nl +:+ join (importLine <$> imports) +:+ ")" +:+ nl +:+ nl
  end.

Definition packageClause (pkg : string) : string :=
  "package " +:+ pkg +:+ nl +:+ nl.
End Spec.

(** A segment that starts with an ASCII byte. *)
Definition ascii_initial (p : string) : Prop :=
  match p with
  | EmptyString => False
  | String c _ => (N_of_ascii c < 0x80)%N
  end.

(** A name all of whose segments are non-empty. *)
Definition wellFormed (name : string) : Prop :=
  EmptyString ∉ Split name "_"%char.

(** The string with the given byte values. *)
Definition bytes (l : list N) : string :=
  foldr (fun n s => String (byte n) s) EmptyString l.

(** What one successful turn of the loop appends to the buffer for the column
    [cs] when the table of the turn before is [prev]. *)
Definition chunk_of (config : Configuration) (prev : string)
    (cs : ColumnSchema) (chunk : string) : Prop :=
  ∃ name field gt imp,
    goType cs = (gt, imp, None)
    ∧ formatName (ColumnName cs) = Ok field
    ∧ (TableName cs ≠ prev → formatName (TableName cs) = Ok name)
    ∧ chunk = Spec.opener prev (TableName cs) name
                +:+ Spec.fieldLine (TagLabel config) field gt (ColumnName cs).

Inductive chunks (config : Configuration) :
    string → list ColumnSchema → list string → Prop :=
  | chunks_nil prev : chunks config prev [] []
  | chunks_cons prev cs schemas chunk rest :
      chunk_of config prev cs chunk →
      chunks config (TableName cs) schemas rest →
      chunks config prev (cs :: schemas) (chunk :: rest).

(** The import that the mapper reports for a column. *)
Definition requiredImportOf (cs : ColumnSchema) : string := (goType cs).1.2.

(** The text that the generator writes for the three columns of
    [users_orders] under the default configuration. *)
Definition users_orders_text : string :=
  match writeStructs defaults "-" (fun _ => None) listOrder users_orders with
  | Ok (_, Some text) => text
  | _ => ""
  end.

(** ** Notions for the further properties *)

(** The number of occurrences of the byte [c] in [s]. *)
Fixpoint count_byte (c : ascii) (s : string) : nat :=
  match s with
  | EmptyString => 0
  | String a s' => (if bool_decide (a = c) then 1 else 0) + count_byte c s'
  end.

(** The strings of [parts] with [sep] between every two neighbours. *)
Fixpoint joinWith (sep : string) (parts : list string) : string :=
  match parts with
  | [] => ""
  | [p] => p
  | p :: parts' => p +:+ sep +:+ joinWith sep parts'
  end.

(** The result of [formatName] where it returns. *)
Definition formatted (name : string) : string :=
  match formatName name with
  | Ok s => s
  | _ => ""
  end.

(** The runs of neighbouring columns of one table, in the order of the
    input, each with its table name. *)
Fixpoint groups (schemas : list ColumnSchema) : list (string * list ColumnSchema) :=
  match schemas with
  | [] => []
  | cs :: schemas' =>
      match groups schemas' with
      | (t, g) :: gs =>
          if bool_decide (TableName cs = t) then (t, cs :: g) :: gs
          else (TableName cs, [cs]) :: (t, g) :: gs
      | [] => [(TableName cs, [cs])]
      end
  end.

(** The layout of the type declarations in the generated file: one block per
    run of columns, of one field line per column, the blocks separated by an
    empty line. *)
Module Layout.
Definition field (config : Configuration) (cs : ColumnSchema) : string :=
  Spec.fieldLine (TagLabel config) (formatted (ColumnName cs))
    (goType cs).1.1 (ColumnName cs).

Definition fields (config : Configuration) (g : list ColumnSchema) : string :=
  Spec.join (field config <$> g).

Definition block (config : Configuration) (g : string * list ColumnSchema) : string :=
  "type " +:+ formatted g.1 +:+ " struct{" +:+ nl +:+ fields config g.2 +:+ "}".

Definition typeBlocks (config : Configuration)
    (gs : list (string * list ColumnSchema)) : string :=
  joinWith (nl +:+ nl) (block config <$> gs).

(** The brace that closes a block, followed by the blocks after it. *)
Definition closing (config : Configuration)
    (gs : list (string * list ColumnSchema)) : string :=
  "}" +:+ match gs with
          | [] => ""
          | _ => nl +:+ nl +:+ typeBlocks config gs
          end.

(** What follows the buffer of a state whose current table is [prev]: the
    rest of the open block when the next run continues it, and otherwise
    the blocks of all runs, after the closing of the open block if any. *)
Definition continuation (config : Configuration) (prev : string)
    (gs : list (string * list ColumnSchema)) : string :=
  match gs with
  | [] => "}"
  | (t, g) :: gs' =>
      if bool_decide (t = prev) then fields config g +:+ closing config gs'
      else (if bool_decide (prev = "") then "" else "}" +:+ nl +:+ nl)
             +:+ typeBlocks config gs
  end.
End Layout.


(** The Go types that [goType] can return. *)
Definition goTypes : list string :=
  [ "string"; "sql.NullString"; "[]byte"; "time.Time";
    "int64"; "sql.NullInt64"; "float64"; "sql.NullFloat64" ].

(** ** The program *)


Section Program.

(** The [-json] and [-out] flags. *)
Variable configFile : string.
Variable output : string.

(** The file system, the JSON decoder and the database, as [main] sees them:
    [readConfig path] is the configuration that [os.Open] and [Decode] leave
    in the zero-valued [config], or the error that ends in [log.Fatal];
    [getSchema config] is the list of rows of the catalog query, or the
    error of the connection, the query or a scan. *)
Variable readConfig : string -> Outcome Configuration.
Variable getSchema : Configuration -> Outcome (list ColumnSchema).
Variable os_Create : string -> option error.
Variable rangeOrder : gmap string bool -> list string.


End Program.

(** * Properties *)

(** ** Examples *)

Example goType_varchar_yes :
  goType (column "users" "name" "YES" "varchar") = ("sql.NullString", "database/sql", None).
Proof. reflexivity. Qed.

Example formatName_first_name : formatName "first_name" = Ok "FirstName".
Proof. reflexivity. Qed.
Example formatName_id : formatName "id" = Ok "Id".
Proof. reflexivity. Qed.
Example formatName_empty : formatName "" = Panic.
Proof. reflexivity. Qed.
Example Split_ex : Split "a__b_" "_"%char = ["a"; ""; "b"; ""].
Proof. reflexivity. Qed.

(** ** The type mapper *)

(** Splits a membership in a literal list into one equation per element. *)
Ltac in_cases H :=
  repeat (apply elem_of_cons in H as [H | H]);
  [ .. | by apply elem_of_nil in H ].

(** Evaluates [goType] on a column whose data type is a literal, by cases on
    the nullability test. *)
Ltac eval_goType n :=
  destruct (decide (n = "YES")) as [-> | Hn];
  [ reflexivity
  | cbv beta delta [goType]; simpl;
    rewrite ?(bool_decide_eq_false_2 _ Hn); reflexivity ].

(** C1: in the string, integer and float rows of the table, [goType] returns
    the wrapper type with the import database/sql when [IsNullable] is
    "YES", and the bare type with no import otherwise; there is no error. *)
Theorem goType_wrapped_rows col family bare wrapper :
  (family, bare, wrapper) ∈ Table.wrapped_rows →
  DataType col ∈ family →
  goType col = if bool_decide (IsNullable col = "YES")
               then (wrapper, "database/sql", None)
               else (bare, "", None).
Proof.
  destruct col as [t c n d ? ? ? ? ?]; simpl; intros Hrow Hd.
  unfold Table.wrapped_rows in Hrow; in_cases Hrow;
    injection Hrow as -> -> ->.
  - unfold Table.string_family in Hd; in_cases Hd; subst d; eval_goType n.
  - unfold Table.integer_family in Hd; in_cases Hd; subst d; eval_goType n.
  - unfold Table.float_family in Hd; in_cases Hd; subst d; eval_goType n.
Qed.

Lemma goType_wrapped_rows_witness :
  goType (column "users" "name" "YES" "varchar")
    = ("sql.NullString", "database/sql", None)
  ∧ goType (column "users" "id" "NO" "bigint") = ("int64", "", None).
Proof.
  split.
  - apply (goType_wrapped_rows (column "users" "name" "YES" "varchar")
             Table.string_family "string" "sql.NullString").
    + apply list_elem_of_here.
    + apply list_elem_of_here.
  - apply (goType_wrapped_rows (column "users" "id" "NO" "bigint")
             Table.integer_family "int64" "sql.NullInt64").
    + apply list_elem_of_further, list_elem_of_here.
    + do 4 apply list_elem_of_further. apply list_elem_of_here.
Defined.

(** The temporal row: the type and the import do not depend on nullability. *)
Lemma goType_temporal col :
  DataType col ∈ Table.temporal_family →
  goType col = ("time.Time", "time", None).
Proof.
  destruct col as [t c n d ? ? ? ? ?]; simpl; intros Hd.
  unfold Table.temporal_family in Hd; in_cases Hd; subst d; eval_goType n.
Qed.

(** The blob row: the type is never wrapped, and the import follows the
    nullability flag, which no case of the [switch] clears for blobs. *)
Lemma goType_blob col :
  DataType col ∈ Table.blob_family →
  goType col = ("[]byte",
                if bool_decide (IsNullable col = "YES") then "database/sql" else "",
                None).
Proof.
  destruct col as [t c n d ? ? ? ? ?]; simpl; intros Hd.
  unfold Table.blob_family in Hd; in_cases Hd; subst d; eval_goType n.
Qed.

(** C2: on a nullable blob column [goType] returns the byte-slice type
    together with the import database/sql, whereas the table asks for no
    import in the blob row. *)
Theorem goType_nullable_blob_import :
  goType (column "files" "payload" "YES" "blob")
    = ("[]byte", "database/sql", None).
Proof. reflexivity. Qed.

Lemma goType_outside_table col :
  DataType col ∉ Table.all → goType col = ("", "", Some (unsupported col)).
Proof.
  destruct col as [t c n d ? ? ? ? ?]; simpl; intros Hd.
  assert (H1 : d ∉ Table.string_family) by (intros ?; apply Hd; unfold Table.all; rewrite !elem_of_app; tauto).
  assert (H2 : d ∉ Table.blob_family) by (intros ?; apply Hd; unfold Table.all; rewrite !elem_of_app; tauto).
  assert (H3 : d ∉ Table.temporal_family) by (intros ?; apply Hd; unfold Table.all; rewrite !elem_of_app; tauto).
  assert (H4 : d ∉ Table.integer_family) by (intros ?; apply Hd; unfold Table.all; rewrite !elem_of_app; tauto).
  assert (H5 : d ∉ Table.float_family) by (intros ?; apply Hd; unfold Table.all; rewrite !elem_of_app; tauto).
  cbv beta delta [goType]; simpl.
  rewrite (bool_decide_eq_false_2 _ H1), (bool_decide_eq_false_2 _ H2),
    (bool_decide_eq_false_2 _ H3), (bool_decide_eq_false_2 _ H4),
    (bool_decide_eq_false_2 _ H5).
  reflexivity.
Qed.

Lemma goType_in_table col :
  DataType col ∈ Table.all →
  ∃ gt imp, gt ≠ "" ∧ goType col = (gt, imp, None).
Proof.
  destruct col as [t c n d ? ? ? ? ?]; simpl; intros Hd.
  unfold Table.all, Table.string_family, Table.blob_family,
    Table.temporal_family, Table.integer_family, Table.float_family in Hd.
  simpl in Hd; in_cases Hd; subst d.
  all: destruct (decide (n = "YES")) as [-> | Hn];
    [ eexists _, _; split; [| reflexivity]; done
    | cbv beta delta [goType]; simpl;
      rewrite ?(bool_decide_eq_false_2 _ Hn);
      eexists _, _; split; [| reflexivity]; done ].
Qed.

(** C3: a data type outside the table makes [goType] fail: the type and the
    import are empty and the error names the table and the column. *)
Theorem goType_unsupported col :
  DataType col ∉ Table.all →
  goType col
    = ("", "",
       Some ("No compatible datatype for "
               +:+ (TableName col +:+ "." +:+ ColumnName col) +:+ " found")).
Proof. apply goType_outside_table. Qed.

Lemma goType_unsupported_witness :
  goType (column "shapes" "outline" "YES" "geometry")
    = ("", "", Some "No compatible datatype for shapes.outline found").
Proof.
  apply (goType_unsupported (column "shapes" "outline" "YES" "geometry")).
  apply (bool_decide_unpack _). vm_compute. exact I.
Defined.

(** C10: with a data type of the table, every nullability flag other than
    the exact string "YES" gives the bare type of the row and, outside the
    temporal row, no import: the result is the one of the flag "NO". *)
Theorem goType_only_YES_is_nullable col :
  DataType col ∈ Table.all →
  IsNullable col ≠ "YES" →
  goType col
    = (Table.bare_type (DataType col),
       if bool_decide (DataType col ∈ Table.temporal_family) then "time" else "",
       None)
  ∧ goType col = goType (with_IsNullable "NO" col).
Proof.
  destruct col as [t c n d ? ? ? ? ?]; unfold with_IsNullable; simpl.
  intros Hd Hn.
  unfold Table.all, Table.string_family, Table.blob_family,
    Table.temporal_family, Table.integer_family, Table.float_family in Hd.
  simpl in Hd; in_cases Hd; subst d.
  all: cbv beta delta [goType]; simpl;
    rewrite ?(bool_decide_eq_false_2 _ Hn); split; reflexivity.
Qed.

Lemma goType_only_YES_is_nullable_witness :
  goType (column "users" "name" "yes" "varchar") = ("string", "", None)
  ∧ goType (column "users" "seen" "" "datetime") = ("time.Time", "time", None).
Proof.
  split.
  - apply (goType_only_YES_is_nullable (column "users" "name" "yes" "varchar")).
    + apply list_elem_of_here.
    + discriminate.
  - apply (goType_only_YES_is_nullable (column "users" "seen" "" "datetime")).
    + apply (bool_decide_unpack _). vm_compute. exact I.
    + discriminate.
Defined.

(** ** The identifier formatter *)

Lemma append_assoc (s1 s2 s3 : string) :
  (s1 +:+ s2) +:+ s3 = s1 +:+ (s2 +:+ s3).
Proof.
  induction s1 as [| c s1 IH]; [reflexivity |].
  change (String c ((s1 +:+ s2) +:+ s3) = String c (s1 +:+ (s2 +:+ s3))).
  by rewrite IH.
Qed.

Lemma append_empty_r (s : string) : s +:+ EmptyString = s.
Proof.
  induction s as [| c s IH]; [reflexivity |].
  change (String c (s +:+ EmptyString) = String c s). by rewrite IH.
Qed.

Lemma length_append (s1 s2 : string) :
  String.length (s1 +:+ s2) = String.length s1 + String.length s2.
Proof.
  induction s1 as [| c s1 IH]; [reflexivity |].
  change (S (String.length (s1 +:+ s2)) = S (String.length s1 + String.length s2)).
  by rewrite IH.
Qed.

Lemma byte_conversions (b : ascii) :
  (N_of_ascii b < 0x80)%N →
  string_of_byte b = String b EmptyString
  ∧ ToUpper_of_byte b = String (Spec.upper b) EmptyString.
Proof.
  destruct b as [[] [] [] [] [] [] [] []]; intros H;
    first [ vm_compute in H; discriminate H | split; reflexivity ].
Qed.

Lemma Replace_head (b u : ascii) (rest : string) :
  Replace (String b rest) (String b EmptyString) (String u EmptyString)
    = String u rest.
Proof. simpl. rewrite bool_decide_eq_true_2 by done. by destruct rest. Qed.

Lemma formatPart_ascii (p : string) :
  ascii_initial p → formatPart p = Ok (Spec.capitalize p).
Proof.
  destruct p as [| b rest]; [done |]; intros Hb.
  destruct (byte_conversions b Hb) as [Hs Hu].
  unfold formatPart. by rewrite Hs, Hu, Replace_head.
Qed.

Lemma formatParts_ascii (parts : list string) (newName : string) :
  Forall ascii_initial parts →
  formatParts parts newName
    = Ok (newName +:+ Spec.join (Spec.capitalize <$> parts)).
Proof.
  intros H; revert newName.
  induction H as [| p parts Hp _ IH]; intros newName; simpl.
  - by rewrite append_empty_r.
  - rewrite (formatPart_ascii p Hp); simpl.
    by rewrite IH, append_assoc.
Qed.

(** On names whose segments all start with an ASCII byte, [formatName] is the
    formatter of the specification. *)
Lemma formatName_ascii (name : string) :
  Forall ascii_initial (Split name "_"%char) →
  formatName name = Ok (Spec.formatName name).
Proof. intros H. unfold formatName. by rewrite (formatParts_ascii _ _ H). Qed.

Lemma formatParts_empty_part (parts : list string) (newName : string) :
  EmptyString ∈ parts → formatParts parts newName = Panic.
Proof.
  revert newName; induction parts as [| p parts IH]; intros newName H.
  - by apply elem_of_nil in H.
  - apply elem_of_cons in H as [<- | H]; [reflexivity |].
    destruct p as [| b rest]; [reflexivity |]. simpl. by apply IH.
Qed.

(** A name with an empty segment makes [formatName] panic. *)
Lemma formatName_empty_segment (name : string) :
  EmptyString ∈ Split name "_"%char → formatName name = Panic.
Proof. apply formatParts_empty_part. Qed.

(** [formatName] never ends in [log.Fatal], and it returns whenever no
    segment is empty. *)
Lemma formatParts_returns (parts : list string) (newName : string) :
  EmptyString ∉ parts → ∃ s, formatParts parts newName = Ok s.
Proof.
  revert newName; induction parts as [| p parts IH]; intros newName H.
  - by eexists.
  - destruct p as [| b rest].
    + exfalso; apply H, list_elem_of_here.
    + simpl. apply IH. intros Hin; apply H. by apply list_elem_of_further.
Qed.

Lemma formatName_returns (name : string) :
  EmptyString ∉ Split name "_"%char → ∃ s, formatName name = Ok s.
Proof. apply formatParts_returns. Qed.

(** C4: [formatName] panics on the empty name and on a name with two
    underscores in a row, where the specification asks for the results
    [""] and ["AB"]. *)
Theorem formatName_panics_on_empty_segment :
  formatName "" = Panic ∧ formatName "a__b" = Panic.
Proof. split; reflexivity. Qed.

(** C8: a segment whose first byte is not ASCII is not capitalised by its
    first character. The name of bytes C3 B1 75 (n with tilde, then u) comes
    back unchanged, and in the name E4 B8 AD C3 A4 (a CJK character, then a
    with diaeresis) the first character is kept and the second one is put in
    upper case (C3 84). *)
Theorem formatName_non_ascii_initial :
  formatName (bytes [0xC3; 0xB1; 0x75]%N) = Ok (bytes [0xC3; 0xB1; 0x75]%N)
  ∧ formatName (bytes [0xE4; 0xB8; 0xAD; 0xC3; 0xA4]%N)
      = Ok (bytes [0xE4; 0xB8; 0xAD; 0xC3; 0x84]%N).
Proof. split; reflexivity. Qed.

(** ** The struct emitter *)

Lemma length_zero_iff (s : string) : (0 <? String.length s)%nat = false ↔ s = "".
Proof.
  destruct s; simpl; split; intros H; try done.
Qed.

Lemma annotation_code config cs (b : string) :
  (if (0 <? String.length (TagLabel config))%nat
   then b +:+ tab +:+ backquote +:+ TagLabel config +:+ ":"
          +:+ quote +:+ ColumnName cs +:+ quote +:+ backquote
   else b)
  = b +:+ Spec.annotation (TagLabel config) (ColumnName cs).
Proof.
  unfold Spec.annotation. destruct (TagLabel config) as [| c l]; simpl.
  - by rewrite append_empty_r.
  - reflexivity.
Qed.

Lemma loopBody_Ok config st cs st' :
  loopBody config st cs = Ok st' →
  ∃ chunk,
    chunk_of config (currentTable st) cs chunk
    ∧ buffer st' = buffer st +:+ chunk
    ∧ currentTable st' = TableName cs
    ∧ neededImports st'
        = if bool_decide (requiredImportOf cs ≠ "")
          then <[requiredImportOf cs := true]> (neededImports st)
          else neededImports st.
Proof.
  unfold loopBody, chunk_of, requiredImportOf, Spec.opener, Spec.fieldLine.
  destruct (goType cs) as [[gt imp] err] eqn:Hgo; simpl.
  destruct (decide (TableName cs = currentTable st)) as [Heq | Hne].
  - rewrite (bool_decide_eq_false_2 (TableName cs ≠ currentTable st)) by tauto.
    rewrite (bool_decide_eq_true_2 _ Heq); simpl.
    destruct err as [e |]; [done |].
    destruct (formatName (ColumnName cs)) as [field | |] eqn:Hf; simpl; [| done..].
    rewrite annotation_code. intros [= <-]; simpl.
    eexists; split.
    { exists "", field, gt, imp. split_and!; [done | done | done | reflexivity]. }
    split_and!; [| done | done]. by rewrite !append_assoc.
  - rewrite (bool_decide_eq_true_2 _ Hne), (bool_decide_eq_false_2 _ Hne).
    destruct (formatName (TableName cs)) as [name | |] eqn:Ht; simpl; [| done..].
    destruct err as [e |]; [done |].
    destruct (formatName (ColumnName cs)) as [field | |] eqn:Hf; simpl; [| done..].
    rewrite annotation_code. intros [= <-]; simpl.
    eexists; split.
    { exists name, field, gt, imp. split_and!; [done | done | done | reflexivity]. }
    split_and!; [| done | done].
    destruct (decide (currentTable st = "")) as [He | He].
    + rewrite (bool_decide_eq_false_2 (currentTable st ≠ "")) by tauto.
      rewrite (bool_decide_eq_true_2 _ He). by rewrite !append_assoc.
    + rewrite (bool_decide_eq_true_2 _ He), (bool_decide_eq_false_2 _ He).
      by rewrite !append_assoc.
Qed.

Lemma loop_Ok config schemas st st' :
  loop config schemas st = Ok st' →
  ∃ fields,
    chunks config (currentTable st) schemas fields
    ∧ buffer st' = buffer st +:+ Spec.join fields
    ∧ ∀ k, is_Some (neededImports st' !! k) ↔
           is_Some (neededImports st !! k)
           ∨ (k ≠ "" ∧ ∃ cs, cs ∈ schemas ∧ requiredImportOf cs = k).
Proof.
  revert st; induction schemas as [| cs schemas IH]; intros st; simpl.
  - intros [= <-]. exists []. split_and!.
    + constructor.
    + by rewrite append_empty_r.
    + intros k; split; [by left |].
      intros [H | (_ & cs & Hin & _)]; [done | by apply elem_of_nil in Hin].
  - destruct (loopBody config st cs) as [st1 | |] eqn:Hbody; simpl; [| done..].
    intros Hloop.
    destruct (loopBody_Ok _ _ _ _ Hbody) as (chunk & Hchunk & Hbuf & Hcur & Hneed).
    destruct (IH _ Hloop) as (fields & Hfields & Hbuf' & Hneed').
    exists (chunk :: fields). split_and!.
    + constructor; [done |]. by rewrite <- Hcur.
    + rewrite Hbuf', Hbuf. simpl. by rewrite append_assoc.
    + intros k. rewrite Hneed', Hneed. clear Hneed' Hneed.
      case_bool_decide as Himp.
      * rewrite lookup_insert_is_Some. split.
        -- intros [[Hk | [_ Hk]] | (Hk & cs' & Hin & Heq)].
           ++ right. split; [by subst k |]. exists cs.
              split; [apply list_elem_of_here | done].
           ++ by left.
           ++ right. split; [done |]. exists cs'.
              split; [by apply list_elem_of_further | done].
        -- intros [Hk | (Hk & cs' & Hin & Heq)]; [| apply elem_of_cons in Hin as [-> | Hin]].
           ++ left. destruct (decide (requiredImportOf cs = k)); [by left | by right].
           ++ left. by left.
           ++ right. split; [done |]. by exists cs'.
      * split.
        -- intros [Hk | (Hk & cs' & Hin & Heq)]; [by left |].
           right. split; [done |]. exists cs'.
           split; [by apply list_elem_of_further | done].
        -- intros [Hk | (Hk & cs' & Hin & Heq)]; [by left |].
           apply elem_of_cons in Hin as [-> | Hin].
           ++ exfalso. apply Hk. by rewrite <- Heq.
           ++ right. split; [done |]. by exists cs'.
Qed.

Lemma foldl_import_lines (keys : list string) (h : string) :
  foldl (fun h imp => h +:+ tab +:+ quote +:+ imp +:+ quote +:+ nl) h keys
    = h +:+ Spec.join (Spec.importLine <$> keys).
Proof.
  revert h; induction keys as [| k keys IH]; intros h; simpl.
  - by rewrite append_empty_r.
  - rewrite IH. unfold Spec.importLine. by rewrite !append_assoc.
Qed.

Lemma headerSection_unfold config rangeOrder m :
  headerSection config rangeOrder m
    = Spec.packageClause (PkgName config)
        +:+ (if (0 <? size m)%nat
             then "import (" +:+ nl
                    +:+ Spec.join (Spec.importLine <$> rangeOrder m)
                    +:+ ")" +:+ nl +:+ nl
             else "").
Proof.
  unfold headerSection, Spec.packageClause. destruct (0 <? size m)%nat.
  - rewrite foldl_import_lines. by rewrite !append_assoc.
  - by rewrite !append_assoc, append_empty_r.
Qed.

Lemma headerSection_spec config rangeOrder m :
  rangeOrder m ≡ₚ (map_to_list m).*1 →
  headerSection config rangeOrder m
    = Spec.packageClause (PkgName config) +:+ Spec.importBlock (rangeOrder m).
Proof.
  intros Hperm. rewrite headerSection_unfold. f_equal.
  assert (Hlen : length (rangeOrder m) = size m).
  { by rewrite Hperm, length_fmap, length_map_to_list. }
  destruct (rangeOrder m) as [| k keys]; simpl in *; rewrite <- Hlen; reflexivity.
Qed.

Lemma headerSection_length config rangeOrder m (body : string) :
  (0 <? String.length (headerSection config rangeOrder m +:+ body))%nat = true.
Proof.
  rewrite headerSection_unfold. unfold Spec.packageClause.
  rewrite !append_assoc. reflexivity.
Qed.

Lemma writeStructs_Ok config output os_Create rangeOrder schemas n written :
  writeStructs config output os_Create rangeOrder schemas = Ok (n, written) →
  ∃ st text,
    loop config schemas initialState = Ok st
    ∧ text = headerSection config rangeOrder (neededImports st)
               +:+ buffer st +:+ "}"
    ∧ written = Some text
    ∧ n = String.length text.
Proof.
  unfold writeStructs.
  destruct (loop config schemas initialState) as [st | |]; simpl; [| done..].
  rewrite headerSection_length. intros H. exists st. eexists.
  split_and!; [done | reflexivity | |].
  - case_bool_decide; [destruct (os_Create output) |]; by simplify_eq.
  - case_bool_decide; [destruct (os_Create output) |]; by simplify_eq.
Qed.

Lemma formatParts_not_Fatal parts newName e : formatParts parts newName ≠ Fatal e.
Proof.
  revert newName; induction parts as [| p parts IH]; intros newName; [done |].
  destruct p as [| b rest]; [done |]. simpl. apply IH.
Qed.

Lemma formatName_not_Fatal name e : formatName name ≠ Fatal e.
Proof. apply formatParts_not_Fatal. Qed.

(** [log.Fatal] in the loop is the error of [goType]. *)
Lemma loopBody_Fatal config st cs e :
  loopBody config st cs = Fatal e → (goType cs).2 = Some e.
Proof.
  unfold loopBody.
  destruct (goType cs) as [[gt imp] err]; simpl.
  case_bool_decide.
  - destruct (formatName (TableName cs)) as [name | e' |] eqn:Ht; simpl; [| | done].
    + destruct err; [congruence |].
      destruct (formatName (ColumnName cs)) as [f | e' |] eqn:Hf; simpl; [done | | done].
      by destruct (formatName_not_Fatal _ _ Hf).
    + by destruct (formatName_not_Fatal _ _ Ht).
  - simpl. destruct err; [congruence |].
    destruct (formatName (ColumnName cs)) as [f | e' |] eqn:Hf; simpl; [done | | done].
    by destruct (formatName_not_Fatal _ _ Hf).
Qed.

(** With an unmappable column in the input the loop does not complete: it
    ends in the error of such a column, or in a panic of [formatName]. *)
Lemma loop_unmappable config schemas st :
  (∃ cs, cs ∈ schemas ∧ DataType cs ∉ Table.all) →
  loop config schemas st = Panic
  ∨ ∃ cs, cs ∈ schemas ∧ (DataType cs ∉ Table.all)
          ∧ loop config schemas st = Fatal (unsupported cs).
Proof.
  revert st; induction schemas as [| cs schemas IH]; intros st (bad & Hin & Hbad).
  { by apply elem_of_nil in Hin. }
  simpl. destruct (loopBody config st cs) as [st1 | e |] eqn:Hbody; simpl.
  - destruct (loopBody_Ok _ _ _ _ Hbody) as (? & (? & ? & gt & imp & Hgo & _) & _).
    apply elem_of_cons in Hin as [-> | Hin].
    { rewrite (goType_outside_table _ Hbad) in Hgo. discriminate. }
    destruct (IH st1) as [HP | (cs' & Hin' & Hbad' & HF)]; [by exists bad | by left |].
    right. exists cs'. split_and!; [by apply list_elem_of_further | done | done].
  - right. exists cs. apply loopBody_Fatal in Hbody.
    destruct (decide (DataType cs ∈ Table.all)) as [Hd | Hd].
    + destruct (goType_in_table _ Hd) as (gt & imp & _ & Hgo).
      rewrite Hgo in Hbody. discriminate.
    + rewrite (goType_outside_table _ Hd) in Hbody. simpl in Hbody.
      injection Hbody as <-. split_and!; [apply list_elem_of_here | done | done].
  - by left.
Qed.

(** The same for [writeStructs]: the run aborts before the sink is opened. *)
Lemma writeStructs_unmappable config output os_Create rangeOrder schemas :
  (∃ cs, cs ∈ schemas ∧ DataType cs ∉ Table.all) →
  writeStructs config output os_Create rangeOrder schemas = Panic
  ∨ ∃ cs, cs ∈ schemas ∧ (DataType cs ∉ Table.all)
          ∧ writeStructs config output os_Create rangeOrder schemas
              = Fatal (unsupported cs).
Proof.
  intros H. unfold writeStructs.
  destruct (loop_unmappable config schemas initialState H)
    as [-> | (cs & Hin & Hbad & ->)]; [by left |].
  right. by exists cs.
Qed.

Lemma writeStructs_unmappable_no_output
    config output os_Create rangeOrder schemas n written :
  (∃ cs, cs ∈ schemas ∧ DataType cs ∉ Table.all) →
  writeStructs config output os_Create rangeOrder schemas ≠ Ok (n, written).
Proof.
  intros H.
  destruct (writeStructs_unmappable config output os_Create rangeOrder schemas H)
    as [-> | (cs & _ & _ & ->)]; discriminate.
Qed.

Lemma loopBody_returns config st cs :
  DataType cs ∈ Table.all →
  wellFormed (TableName cs) → wellFormed (ColumnName cs) →
  ∃ st', loopBody config st cs = Ok st'.
Proof.
  intros Hd Ht Hc. unfold loopBody.
  destruct (goType_in_table _ Hd) as (gt & imp & _ & ->).
  destruct (formatName_returns _ Ht) as [name ->].
  destruct (formatName_returns _ Hc) as [field ->].
  case_bool_decide; simpl; by eexists.
Qed.

Lemma loop_returns config schemas st :
  Forall (fun cs => DataType cs ∈ Table.all
                    ∧ wellFormed (TableName cs) ∧ wellFormed (ColumnName cs))
         schemas →
  ∃ st', loop config schemas st = Ok st'.
Proof.
  intros H; revert st.
  induction H as [| cs schemas (Hd & Ht & Hc) _ IH]; intros st; simpl.
  - by eexists.
  - destruct (loopBody_returns config st cs Hd Ht Hc) as [st1 ->]. simpl. apply IH.
Qed.


Lemma loopBody_Panic config st cs :
  loopBody config st cs = Panic →
  ¬ wellFormed (TableName cs) ∨ ¬ wellFormed (ColumnName cs).
Proof.
  unfold loopBody. intros H.
  destruct (decide (wellFormed (TableName cs))) as [Ht | Ht]; [| by left].
  destruct (decide (wellFormed (ColumnName cs))) as [Hc | Hc]; [| by right].
  exfalso.
  destruct (formatName_returns _ Ht) as [name Hn].
  destruct (formatName_returns _ Hc) as [field Hf].
  rewrite Hn, Hf in H.
  destruct (goType cs) as [[gt imp] [e |]]; case_bool_decide; simpl in H; discriminate.
Qed.

(** With names free of empty segments, an unmappable column ends the run in
    the error of such a column. *)
Lemma writeStructs_unmappable_Fatal config output os_Create rangeOrder schemas :
  Forall (fun cs => wellFormed (TableName cs) ∧ wellFormed (ColumnName cs)) schemas →
  (∃ cs, cs ∈ schemas ∧ DataType cs ∉ Table.all) →
  ∃ cs, cs ∈ schemas ∧ (DataType cs ∉ Table.all)
        ∧ writeStructs config output os_Create rangeOrder schemas
            = Fatal (unsupported cs).
Proof.
  intros Hwf Hbad.
  destruct (writeStructs_unmappable config output os_Create rangeOrder schemas Hbad)
    as [HP | H]; [| done].
  exfalso. unfold writeStructs in HP.
  assert (Hloop : ∀ st, loop config schemas st ≠ Panic).
  { clear HP Hbad. induction Hwf as [| cs schemas [Ht Hc] _ IH]; intros st; [done |].
    simpl. destruct (loopBody config st cs) as [st1 | e |] eqn:Hb; simpl; [apply IH | done |].
    destruct (loopBody_Panic _ _ _ Hb); tauto. }
  specialize (Hloop initialState).
  destruct (loop config schemas initialState) as [st | e |]; simpl in HP; [| done..].
  rewrite headerSection_length in HP.
  case_bool_decide; [destruct (os_Create output) |]; discriminate.
Qed.

(** The text of a run that returns: the package clause, the import block
    over an enumeration of the collected imports, the chunks of the columns
    and the closing brace. *)
Lemma writeStructs_text config output os_Create rangeOrder schemas n written :
  (∀ m, rangeOrder m ≡ₚ (map_to_list m).*1) →
  writeStructs config output os_Create rangeOrder schemas = Ok (n, written) →
  ∃ imports fields,
    written = Some (Spec.packageClause (PkgName config)
                      +:+ Spec.importBlock imports
                      +:+ Spec.join fields +:+ "}")
    ∧ chunks config "" schemas fields
    ∧ NoDup imports
    ∧ ∀ imp, imp ∈ imports ↔
             imp ≠ "" ∧ ∃ cs, cs ∈ schemas ∧ requiredImportOf cs = imp.
Proof.
  intros Hperm H.
  destruct (writeStructs_Ok _ _ _ _ _ _ _ H) as (st & text & Hloop & -> & -> & _).
  destruct (loop_Ok _ _ _ _ Hloop) as (fields & Hchunks & Hbuf & Hneed).
  exists (rangeOrder (neededImports st)), fields. split_and!.
  - rewrite (headerSection_spec _ _ _ (Hperm _)), Hbuf. simpl.
    by rewrite !append_assoc.
  - done.
  - rewrite (Hperm _). apply NoDup_fst_map_to_list.
  - intros imp. rewrite (Hperm _), list_elem_of_fmap.
    assert (Hiff : (∃ kv : string * bool, imp = kv.1 ∧ kv ∈ map_to_list (neededImports st))
                   ↔ is_Some (neededImports st !! imp)).
    { split.
      - intros ([k v] & -> & Hkv). apply elem_of_map_to_list in Hkv. by exists v.
      - intros [v Hv]. exists (imp, v). split; [done |]. by apply elem_of_map_to_list. }
    rewrite Hiff, Hneed. simpl. rewrite lookup_empty. split.
    + intros [[? ?] | ?]; done.
    + by right.
Qed.

Lemma chunks_Forall2 config prev schemas fields :
  chunks config prev schemas fields →
  Forall2 (fun cs chunk => ∃ prev, chunk_of config prev cs chunk) schemas fields.
Proof.
  induction 1 as [| prev cs schemas chunk rest Hc _ IH]; constructor; [| done].
  by exists prev.
Qed.

Lemma importBlock_empty_iff (imports : list string) :
  Spec.importBlock imports = "" ↔ imports = [].
Proof. destruct imports; split; intros H; done. Qed.

(** C5: for the empty input [writeStructs] returns without error, and the
    text it writes is the package clause followed by a closing brace: there
    is no import block and no type declaration, but the brace that closes
    the last type block is written although no block was opened. *)
Theorem writeStructs_empty_input config os_Create rangeOrder :
  writeStructs config "-" os_Create rangeOrder []
    = Ok (11 + String.length (PkgName config),
          Some ("package " +:+ PkgName config +:+ nl +:+ nl +:+ "}")).
Proof.
  unfold writeStructs; simpl.
  rewrite headerSection_length, headerSection_unfold, map_size_empty.
  unfold Spec.packageClause; simpl. rewrite !append_assoc.
  f_equal. f_equal.
  rewrite !length_append. simpl. lia.
Qed.

(** C6: with a column name that has an empty segment in front of the
    unmappable column, the run ends in the panic of [formatName] and not in
    the error of the unmappable column; nothing is written in either case. *)
Theorem writeStructs_panics_before_unmappable config output os_Create rangeOrder :
  writeStructs config output os_Create rangeOrder
    [ column "t" "a__b" "NO" "int"; column "t" "c" "NO" "geometry" ]
  = Panic.
Proof. reflexivity. Qed.

(** C7: in the text of a run that returns, the import block lists an
    enumeration without repetition of exactly the non-empty imports that
    [goType] reports for the columns of the input, one line each, and the
    block is absent exactly when there is no such import. *)
Theorem writeStructs_import_block
    config output os_Create rangeOrder schemas n text :
  (∀ m, rangeOrder m ≡ₚ (map_to_list m).*1) →
  writeStructs config output os_Create rangeOrder schemas = Ok (n, Some text) →
  ∃ imports fields,
    text = Spec.packageClause (PkgName config)
             +:+ Spec.importBlock imports
             +:+ Spec.join fields +:+ "}"
    ∧ chunks config "" schemas fields
    ∧ NoDup imports
    ∧ (∀ imp, imp ∈ imports ↔
              imp ≠ "" ∧ ∃ cs, cs ∈ schemas ∧ (goType cs).1.2 = imp)
    ∧ (Spec.importBlock imports = "" ↔ imports = []).
Proof.
  intros Hperm H.
  destruct (writeStructs_text _ _ _ _ _ _ _ Hperm H)
    as (imports & fields & [= ->] & Hchunks & Hnodup & Hin).
  exists imports, fields. split_and!; try done.
  apply importBlock_empty_iff.
Qed.

Lemma writeStructs_import_block_witness :
  ∃ imports fields,
    users_orders_text
      = Spec.packageClause "DbStructs"
          +:+ Spec.importBlock imports
          +:+ Spec.join fields +:+ "}"
    ∧ chunks defaults "" users_orders fields
    ∧ NoDup imports
    ∧ (∀ imp, imp ∈ imports ↔
              imp ≠ "" ∧ ∃ cs, cs ∈ users_orders ∧ (goType cs).1.2 = imp)
    ∧ (Spec.importBlock imports = "" ↔ imports = []).
Proof.
  apply (writeStructs_import_block defaults "-" (fun _ => None) listOrder
           users_orders 163 users_orders_text).
  - intros m. reflexivity.
  - reflexivity.
Defined.

(** C9: in the text of a run that returns, every column has its field line:
    the formatted column name, the mapped type and the annotation, which is
    empty when the tag label is empty and otherwise the tag label, a colon
    and the raw column name between double quotes, all between back
    quotes. *)
Theorem writeStructs_field_annotation
    config output os_Create rangeOrder schemas n text :
  writeStructs config output os_Create rangeOrder schemas = Ok (n, Some text) →
  ∃ needed fields,
    text = headerSection config rangeOrder needed +:+ Spec.join fields +:+ "}"
    ∧ Forall2
        (fun cs chunk =>
           ∃ prev name field gt annotation,
             chunk = Spec.opener prev (TableName cs) name
                       +:+ tab +:+ field +:+ " " +:+ gt +:+ annotation +:+ nl
             ∧ formatName (ColumnName cs) = Ok field
             ∧ (goType cs).1.1 = gt
             ∧ (TagLabel config = "" → annotation = "")
             ∧ (TagLabel config ≠ "" →
                annotation = tab +:+ backquote +:+ TagLabel config +:+ ":"
                               +:+ quote +:+ ColumnName cs +:+ quote +:+ backquote))
        schemas fields.
Proof.
  intros H.
  destruct (writeStructs_Ok _ _ _ _ _ _ _ H) as (st & ? & Hloop & -> & [= ->] & _).
  destruct (loop_Ok _ _ _ _ Hloop) as (fields & Hchunks & Hbuf & _).
  exists (neededImports st), fields. split.
  { rewrite Hbuf. simpl. by rewrite append_assoc. }
  eapply Forall2_impl; [apply (chunks_Forall2 _ _ _ _ Hchunks) |].
  intros cs chunk (prev & name & field & gt & imp & Hgo & Hf & _ & ->).
  exists prev, name, field, gt, (Spec.annotation (TagLabel config) (ColumnName cs)).
  split_and!; [done | done | by rewrite Hgo | |].
  - intros Ht. unfold Spec.annotation. by rewrite bool_decide_eq_true_2.
  - intros Ht. unfold Spec.annotation. by rewrite bool_decide_eq_false_2.
Qed.

Lemma writeStructs_field_annotation_witness :
  ∃ needed fields,
    users_orders_text
      = headerSection defaults listOrder needed +:+ Spec.join fields +:+ "}"
    ∧ Forall2
        (fun cs chunk =>
           ∃ prev name field gt annotation,
             chunk = Spec.opener prev (TableName cs) name
                       +:+ tab +:+ field +:+ " " +:+ gt +:+ annotation +:+ nl
             ∧ formatName (ColumnName cs) = Ok field
             ∧ (goType cs).1.1 = gt
             ∧ (TagLabel defaults = "" → annotation = "")
             ∧ (TagLabel defaults ≠ "" →
                annotation = tab +:+ backquote +:+ TagLabel defaults +:+ ":"
                               +:+ quote +:+ ColumnName cs +:+ quote +:+ backquote))
        users_orders fields.
Proof.
  apply (writeStructs_field_annotation defaults "-" (fun _ => None) listOrder
           users_orders 163 users_orders_text).
  reflexivity.
Defined.

(** * Further properties *)

(** ** The type mapper *)

(** In the temporal row the type is [time.Time] and the import is [time],
    whatever the nullability flag is. *)
Theorem goType_temporal_row col :
  DataType col ∈ Table.temporal_family →
  goType col = ("time.Time", "time", None).
Proof. apply goType_temporal. Qed.

Lemma goType_temporal_row_witness :
  goType (column "users" "seen" "YES" "timestamp") = ("time.Time", "time", None).
Proof.
  apply (goType_temporal_row (column "users" "seen" "YES" "timestamp")).
  do 3 apply list_elem_of_further. apply list_elem_of_here.
Defined.

(** In the blob row the type is [[]byte], never a wrapper, and the import is
    database/sql exactly when the nullability flag is "YES". *)
Theorem goType_blob_row col :
  DataType col ∈ Table.blob_family →
  goType col = ("[]byte",
                if bool_decide (IsNullable col = "YES") then "database/sql" else "",
                None).
Proof. apply goType_blob. Qed.

Lemma goType_blob_row_witness :
  goType (column "files" "payload" "NO" "longblob") = ("[]byte", "", None).
Proof.
  apply (goType_blob_row (column "files" "payload" "NO" "longblob")).
  do 2 apply list_elem_of_further. apply list_elem_of_here.
Defined.

Lemma goType_error_outside col e :
  (goType col).2 = Some e → DataType col ∉ Table.all.
Proof.
  intros He Hd. destruct (goType_in_table _ Hd) as (gt & imp & _ & Hgo).
  rewrite Hgo in He. discriminate.
Qed.

Lemma goType_success_inside col gt imp :
  goType col = (gt, imp, None) → DataType col ∈ Table.all.
Proof.
  intros Hgo. destruct (decide (DataType col ∈ Table.all)) as [Hd | Hd]; [done |].
  rewrite (goType_outside_table _ Hd) in Hgo. discriminate.
Qed.


(** The result of [goType] on a column of the table, read off the flag and
    the data type alone. *)
Lemma goType_value col :
  DataType col ∈ Table.all →
  goType col
    = (if bool_decide (IsNullable col = "YES") then
         if bool_decide (DataType col ∈ Table.string_family) then "sql.NullString"
         else if bool_decide (DataType col ∈ Table.integer_family) then "sql.NullInt64"
         else if bool_decide (DataType col ∈ Table.float_family) then "sql.NullFloat64"
         else Table.bare_type (DataType col)
       else Table.bare_type (DataType col),
       if bool_decide (DataType col ∈ Table.temporal_family) then "time"
       else if bool_decide (IsNullable col = "YES") then "database/sql" else "",
       None).
Proof.
  destruct col as [t c n d ? ? ? ? ?]; simpl; intros Hd.
  unfold Table.all, Table.string_family, Table.blob_family,
    Table.temporal_family, Table.integer_family, Table.float_family in Hd.
  simpl in Hd; in_cases Hd; subst d.
  all: destruct (decide (n = "YES")) as [-> | Hn];
    [ reflexivity
    | cbv beta delta [goType]; simpl;
      rewrite ?(bool_decide_eq_false_2 _ Hn); reflexivity ].
Qed.

(** Every qualified type comes with the import of its package: a wrapper
    type with database/sql and [time.Time] with time; the type is one of
    eight and the import is never anything but these two or none. *)
Theorem goType_import_covers_type col gt imp :
  goType col = (gt, imp, None) →
  gt ∈ goTypes
  ∧ imp ∈ [""; "database/sql"; "time"]
  ∧ (gt ∈ ["sql.NullString"; "sql.NullInt64"; "sql.NullFloat64"] → imp = "database/sql")
  ∧ (gt = "time.Time" → imp = "time").
Proof.
  intros Hgo. pose proof (goType_success_inside _ _ _ Hgo) as Hd.
  rewrite (goType_value _ Hd) in Hgo.
  unfold Table.bare_type in Hgo.
  unfold Table.all, Table.string_family, Table.blob_family,
    Table.temporal_family, Table.integer_family, Table.float_family in *.
  simpl in Hd; in_cases Hd; rewrite Hd in Hgo; simpl in Hgo;
    case_bool_decide; injection Hgo as <- <-;
    (split_and!; [ apply (bool_decide_unpack _); by vm_compute
                 | apply (bool_decide_unpack _); by vm_compute
                 | intros Hgt; in_cases Hgt; done
                 | done ]).
Qed.

Lemma goType_import_covers_type_witness :
  "sql.NullInt64" ∈ goTypes
  ∧ "database/sql" ∈ [""; "database/sql"; "time"]
  ∧ ("sql.NullInt64" ∈ ["sql.NullString"; "sql.NullInt64"; "sql.NullFloat64"]
     → "database/sql" = "database/sql")
  ∧ ("sql.NullInt64" = "time.Time" → "database/sql" = "time").
Proof.
  apply (goType_import_covers_type (column "users" "age" "YES" "smallint")).
  reflexivity.
Defined.

(** The type and the import depend on the data type and the nullability flag
    only: neither the names nor the sizes or the key of the column change
    them, and they do not change whether [goType] fails. *)
Theorem goType_depends_on_type_and_flag col1 col2 :
  DataType col1 = DataType col2 →
  IsNullable col1 = IsNullable col2 →
  (goType col1).1 = (goType col2).1
  ∧ ((goType col1).2 = None ↔ (goType col2).2 = None).
Proof.
  intros Hd Hn.
  destruct (decide (DataType col1 ∈ Table.all)) as [H1 | H1].
  - assert (H2 : DataType col2 ∈ Table.all) by (by rewrite <- Hd).
    rewrite (goType_value _ H1), (goType_value _ H2), Hd, Hn. done.
  - assert (H2 : DataType col2 ∉ Table.all) by (by rewrite <- Hd).
    rewrite (goType_outside_table _ H1), (goType_outside_table _ H2). done.
Qed.

Lemma goType_depends_on_type_and_flag_witness :
  (goType (column "users" "name" "YES" "text")).1
    = (goType (column "orders" "note" "YES" "text")).1
  ∧ ((goType (column "users" "name" "YES" "text")).2 = None
     ↔ (goType (column "orders" "note" "YES" "text")).2 = None).
Proof.
  apply (goType_depends_on_type_and_flag
           (column "users" "name" "YES" "text")
           (column "orders" "note" "YES" "text")); reflexivity.
Defined.

(** ** The identifier formatter *)

Lemma Split_nonempty (s : string) (sep : ascii) :
  ∃ p ps, Split s sep = p :: ps.
Proof.
  destruct s as [| c s]; simpl; [by eexists _, _ |].
  case_bool_decide; [by eexists _, _ |].
  destruct (Split s sep); by eexists _, _.
Qed.

Lemma Split_length (s : string) (sep : ascii) :
  length (Split s sep) = S (count_byte sep s).
Proof.
  induction s as [| c s IH]; simpl; [done |].
  case_bool_decide; simpl; [by rewrite IH |].
  destruct (Split_nonempty s sep) as (p & ps & Hs).
  rewrite Hs in *. simpl in *. done.
Qed.

Lemma Split_parts_no_sep (s : string) (sep : ascii) :
  Forall (fun p => count_byte sep p = 0) (Split s sep).
Proof.
  induction s as [| c s IH]; simpl.
  - by repeat constructor.
  - case_bool_decide as Hc.
    + by constructor.
    + destruct (Split_nonempty s sep) as (p & ps & Hs). rewrite Hs in *.
      apply Forall_cons in IH as [Hp Hps]. constructor; [| done].
      simpl. by rewrite bool_decide_eq_false_2.
Qed.

Lemma joinWith_head (sep : string) (c : ascii) (p : string) (ps : list string) :
  joinWith sep (String c p :: ps) = String c (joinWith sep (p :: ps)).
Proof. by destruct ps. Qed.

Lemma Split_joinWith (s : string) (sep : ascii) :
  joinWith (String sep EmptyString) (Split s sep) = s.
Proof.
  induction s as [| c s IH]; simpl; [done |].
  destruct (Split_nonempty s sep) as (p & ps & Hs). rewrite Hs in *.
  case_bool_decide as Hc.
  - subst c.
    change (String sep (joinWith (String sep "") (p :: ps)) = String sep s).
    by rewrite IH.
  - rewrite joinWith_head. by rewrite IH.
Qed.

Lemma Split_single (s : string) (sep : ascii) :
  count_byte sep s = 0 → Split s sep = [s].
Proof.
  induction s as [| c s IH]; simpl; [done |].
  case_bool_decide; [done |]. simpl. intros Hs. by rewrite (IH Hs).
Qed.

(** The sum of the lengths of the parts. *)
Lemma Split_total_length (s : string) (sep : ascii) :
  foldr (fun p n => String.length p + n) 0 (Split s sep) + count_byte sep s
    = String.length s.
Proof.
  induction s as [| c s IH]; simpl; [done |].
  destruct (Split_nonempty s sep) as (p & ps & Hs). rewrite Hs in *.
  case_bool_decide; simpl in *; lia.
Qed.

(** [strings.Split] on a one-byte separator: there is one part more than
    there are separators in the string, no part holds the separator, and
    the parts joined by the separator are the string again. *)
Theorem Split_round_trip (s : string) (sep : ascii) :
  length (Split s sep) = S (count_byte sep s)
  ∧ Forall (fun p => count_byte sep p = 0) (Split s sep)
  ∧ joinWith (String sep EmptyString) (Split s sep) = s.
Proof.
  split_and!;
    [apply Split_length | apply Split_parts_no_sep | apply Split_joinWith].
Qed.

Lemma count_byte_append (c : ascii) (s1 s2 : string) :
  count_byte c (s1 +:+ s2) = count_byte c s1 + count_byte c s2.
Proof.
  induction s1 as [| a s1 IH]; [done |].
  change (count_byte c (String a (s1 +:+ s2))
          = count_byte c (String a s1) + count_byte c s2).
  simpl. rewrite IH. lia.
Qed.

Lemma count_byte_drop (c : ascii) (n : nat) (s : string) :
  count_byte c s = 0 → count_byte c (drop_bytes n s) = 0.
Proof.
  revert s; induction n as [| n IH]; intros s; [done |].
  destruct s as [| a s]; simpl; [done |]. intros H. apply IH. lia.
Qed.

Lemma length_drop_bytes (n : nat) (s : string) :
  String.length (drop_bytes n s) = String.length s - n.
Proof.
  revert s; induction n as [| n IH]; intros s; simpl; [lia |].
  destruct s as [| a s]; simpl; [done | apply IH].
Qed.

Lemma HasPrefix_length (s old : string) :
  HasPrefix s old = true → String.length old ≤ String.length s.
Proof.
  revert s; induction old as [| a old IH]; intros s; simpl; [lia |].
  destruct s as [| b s]; simpl; [done |].
  intros [_ H]%andb_prop. apply IH in H. lia.
Qed.

Lemma Replace_unfold (s old new : string) :
  Replace s old new
    = if HasPrefix s old then new +:+ drop_bytes (String.length old) s
      else match s with
           | EmptyString => EmptyString
           | String c s' => String c (Replace s' old new)
           end.
Proof. by destruct s. Qed.

Lemma Replace_length (s old new : string) :
  String.length old = String.length new →
  String.length (Replace s old new) = String.length s.
Proof.
  intros Hlen. induction s as [| c s IH]; rewrite Replace_unfold.
  - destruct (HasPrefix "" old) eqn:Hp; [| done].
    apply HasPrefix_length in Hp.
    rewrite length_append, length_drop_bytes. simpl in *. lia.
  - destruct (HasPrefix (String c s) old) eqn:Hp.
    + apply HasPrefix_length in Hp.
      rewrite length_append, length_drop_bytes. simpl in *. lia.
    + simpl. by rewrite IH.
Qed.

Lemma Replace_count_zero (c : ascii) (s old new : string) :
  count_byte c s = 0 → count_byte c new = 0 →
  count_byte c (Replace s old new) = 0.
Proof.
  intros Hs Hnew. induction s as [| a s IH]; rewrite Replace_unfold.
  - destruct (HasPrefix "" old); [| done].
    by rewrite count_byte_append, Hnew, count_byte_drop.
  - destruct (HasPrefix (String a s) old).
    + by rewrite count_byte_append, Hnew, count_byte_drop.
    + simpl in *. rewrite IH; lia.
Qed.

Lemma byte_upper_length (b : ascii) :
  String.length (string_of_byte b) = String.length (ToUpper_of_byte b).
Proof. destruct b as [[] [] [] [] [] [] [] []]; reflexivity. Qed.

Lemma byte_upper_no_underscore (b : ascii) :
  b ≠ "_"%char → count_byte "_" (ToUpper_of_byte b) = 0.
Proof.
  destruct b as [[] [] [] [] [] [] [] []]; intros H;
    first [ reflexivity | by destruct H ].
Qed.

Lemma formatPart_length (p q : string) :
  formatPart p = Ok q → String.length q = String.length p.
Proof.
  destruct p as [| b rest]; [done |]. intros H.
  assert (q = Replace (String b rest) (string_of_byte b) (ToUpper_of_byte b))
    as -> by (unfold formatPart in H; congruence).
  apply Replace_length, byte_upper_length.
Qed.

Lemma formatPart_no_underscore (p q : string) :
  formatPart p = Ok q → count_byte "_" p = 0 → count_byte "_" q = 0.
Proof.
  destruct p as [| b rest]; [done |]. intros H Hp.
  assert (q = Replace (String b rest) (string_of_byte b) (ToUpper_of_byte b))
    as -> by (unfold formatPart in H; congruence).
  apply Replace_count_zero; [done |].
  apply byte_upper_no_underscore. intros ->. simpl in Hp. done.
Qed.

Lemma formatParts_result (parts : list string) (newName s : string) :
  formatParts parts newName = Ok s →
  String.length s
    = String.length newName + foldr (fun p n => String.length p + n) 0 parts
  ∧ (Forall (fun p => count_byte "_" p = 0) parts →
     count_byte "_" newName = 0 → count_byte "_" s = 0).
Proof.
  revert newName; induction parts as [| p parts IH]; intros newName; simpl.
  - intros [= <-]. split; [lia | done].
  - destruct (formatPart p) as [q | |] eqn:Hq; simpl; [| done..].
    intros H. destruct (IH _ H) as [Hlen Hcount]. split.
    + rewrite Hlen, length_append, (formatPart_length _ _ Hq). lia.
    + intros [Hp Hps]%Forall_cons Hn. apply Hcount; [done |].
      by rewrite count_byte_append, Hn, (formatPart_no_underscore _ _ Hq Hp).
Qed.

Lemma formatName_result (name s : string) :
  formatName name = Ok s →
  count_byte "_" s = 0
  ∧ String.length s + count_byte "_" name = String.length name.
Proof.
  intros H. destruct (formatParts_result _ _ _ H) as [Hlen Hcount]. split.
  - apply Hcount; [apply Split_parts_no_sep | done].
  - rewrite Hlen. simpl. apply Split_total_length.
Qed.

(** Where [formatName] returns, the result holds no underscore, and its
    length is the length of the name less the number of underscores in it:
    capitalising a segment never changes its length. *)
Theorem formatName_drops_underscores (name s : string) :
  formatName name = Ok s →
  count_byte "_" s = 0
  ∧ String.length s + count_byte "_" name = String.length name.
Proof. apply formatName_result. Qed.

Lemma formatName_drops_underscores_witness :
  count_byte "_" "CreatedAtUtc" = 0
  ∧ String.length "CreatedAtUtc" + count_byte "_" "created_at_utc"
      = String.length "created_at_utc".
Proof.
  apply (formatName_drops_underscores "created_at_utc" "CreatedAtUtc").
  reflexivity.
Defined.

(** [formatName] panics exactly on the names with an empty part between
    underscores, and returns on all others. *)
Theorem formatName_panics_iff (name : string) :
  (formatName name = Panic ↔ EmptyString ∈ Split name "_"%char)
  ∧ ((∃ s, formatName name = Ok s) ↔ EmptyString ∉ Split name "_"%char).
Proof.
  split; split.
  - intros H. destruct (decide (EmptyString ∈ Split name "_"%char)) as [Hin | Hin]; [done |].
    destruct (formatName_returns _ Hin) as [s Hs]. congruence.
  - apply formatName_empty_segment.
  - intros [s Hs] Hin. rewrite (formatName_empty_segment _ Hin) in Hs. done.
  - apply formatName_returns.
Qed.

(** On a name whose segments all start with an ASCII byte, [formatName]
    returns the segments joined, each with its first byte put in upper case
    when it is a small ASCII letter and everything else unchanged. *)
Theorem formatName_capitalizes_ascii (name : string) :
  Forall ascii_initial (Split name "_"%char) →
  formatName name = Ok (Spec.formatName name).
Proof. apply formatName_ascii. Qed.

Lemma formatName_capitalizes_ascii_witness :
  formatName "order_item_2x" = Ok "OrderItem2x".
Proof.
  apply (formatName_capitalizes_ascii "order_item_2x").
  repeat constructor.
Defined.

Lemma upper_ascii (c : ascii) :
  (N_of_ascii c < 0x80)%N →
  (N_of_ascii (Spec.upper c) < 0x80)%N ∧ Spec.upper (Spec.upper c) = Spec.upper c.
Proof.
  destruct c as [[] [] [] [] [] [] [] []]; intros H;
    first [ vm_compute in H; discriminate H | split; reflexivity ].
Qed.

(** Formatting is idempotent on names whose segments start with an ASCII
    byte: the result of [formatName] is a name that [formatName] returns
    unchanged. *)
Theorem formatName_idempotent (name s : string) :
  Forall ascii_initial (Split name "_"%char) →
  formatName name = Ok s →
  formatName s = Ok s.
Proof.
  intros Hascii Hs.
  destruct (formatName_result _ _ Hs) as [Hno _].
  rewrite (formatName_ascii _ Hascii) in Hs. injection Hs as Hs.
  assert (Hinit : ascii_initial s ∧ Spec.capitalize s = s).
  { unfold Spec.formatName in Hs.
    destruct (Split_nonempty name "_"%char) as (p & ps & Hsplit).
    rewrite Hsplit in *. apply Forall_cons in Hascii as [Hp _].
    destruct p as [| c r]; [done |]. simpl in Hp.
    destruct (upper_ascii c Hp) as [Hlt Hidem].
    rewrite <- Hs. simpl.
    change (String (Spec.upper c) r +:+ ?t) with (String (Spec.upper c) (r +:+ t)).
    simpl. by rewrite Hidem. }
  destruct Hinit as [Hinit Hcap].
  rewrite formatName_ascii.
  - unfold Spec.formatName. rewrite (Split_single _ _ Hno). simpl.
    by rewrite append_empty_r, Hcap.
  - rewrite (Split_single _ _ Hno). by constructor.
Qed.

Lemma formatName_idempotent_witness : formatName "FirstName" = Ok "FirstName".
Proof.
  apply (formatName_idempotent "first_name" "FirstName").
  - repeat constructor.
  - reflexivity.
Defined.






(** ** The struct emitter *)

(** Where [writeStructs] returns, the text has been handed to the sink in
    full: it begins with the package clause and ends with a closing brace,
    and the number returned is its length in bytes. *)
Theorem writeStructs_returns_length
    config output os_Create rangeOrder schemas n written :
  writeStructs config output os_Create rangeOrder schemas = Ok (n, written) →
  ∃ rest,
    written = Some ("package " +:+ PkgName config +:+ nl +:+ nl +:+ rest +:+ "}")
    ∧ n = String.length ("package " +:+ PkgName config +:+ nl +:+ nl +:+ rest +:+ "}").
Proof.
  intros H.
  destruct (writeStructs_Ok _ _ _ _ _ _ _ H) as (st & text & _ & -> & -> & ->).
  rewrite headerSection_unfold. unfold Spec.packageClause.
  rewrite !append_assoc.
  match goal with
  | |- context [ nl +:+ nl +:+ ?r +:+ buffer st +:+ "}" ] =>
      exists (r +:+ buffer st)
  end.
  rewrite !append_assoc. split; reflexivity.
Qed.

Lemma writeStructs_returns_length_witness :
  ∃ rest,
    Some users_orders_text
      = Some ("package " +:+ PkgName defaults +:+ nl +:+ nl +:+ rest +:+ "}")
    ∧ 163 = String.length ("package " +:+ PkgName defaults +:+ nl +:+ nl +:+ rest +:+ "}").
Proof.
  apply (writeStructs_returns_length defaults "-" (fun _ => None) listOrder
           users_orders 163 (Some users_orders_text)).
  reflexivity.
Defined.

(** With a column whose data type is outside the table, nothing is written:
    the run ends in [log.Fatal] with the error of such a column, or in a
    panic of [formatName], whatever the other columns, the configuration
    and the sink are. *)
Theorem writeStructs_aborts_on_unmappable
    config output os_Create rangeOrder schemas :
  (∃ cs, cs ∈ schemas ∧ DataType cs ∉ Table.all) →
  writeStructs config output os_Create rangeOrder schemas = Panic
  ∨ ∃ cs, cs ∈ schemas ∧ (DataType cs ∉ Table.all)
          ∧ writeStructs config output os_Create rangeOrder schemas
              = Fatal (unsupported cs).
Proof. apply writeStructs_unmappable. Qed.

Lemma writeStructs_aborts_on_unmappable_witness :
  writeStructs defaults "out.go" (fun _ => None) listOrder
    [ column "users" "id" "NO" "int"; column "users" "area" "YES" "polygon" ]
  = Panic
  ∨ ∃ cs, cs ∈ [ column "users" "id" "NO" "int"; column "users" "area" "YES" "polygon" ]
          ∧ (DataType cs ∉ Table.all)
          ∧ writeStructs defaults "out.go" (fun _ => None) listOrder
              [ column "users" "id" "NO" "int"; column "users" "area" "YES" "polygon" ]
            = Fatal (unsupported cs).
Proof.
  apply (writeStructs_aborts_on_unmappable defaults "out.go" (fun _ => None) listOrder).
  exists (column "users" "area" "YES" "polygon"). split.
  - apply list_elem_of_further, list_elem_of_here.
  - apply (bool_decide_unpack _). vm_compute. exact I.
Defined.

Lemma loop_app config (xs ys : list ColumnSchema) st :
  loop config (xs ++ ys) st = bind (loop config xs st) (loop config ys).
Proof.
  revert st; induction xs as [| x xs IH]; intros st; simpl; [done |].
  destruct (loopBody config st x); simpl; [apply IH | done | done].
Qed.

Lemma loopBody_unmappable config st cs :
  DataType cs ∉ Table.all →
  TableName cs = currentTable st ∨ wellFormed (TableName cs) →
  loopBody config st cs = Fatal (unsupported cs).
Proof.
  intros Hd Ht. unfold loopBody. rewrite (goType_outside_table _ Hd).
  case_bool_decide as Hne; simpl; [| done].
  destruct Ht as [Ht | Ht]; [done |].
  by destruct (formatName_returns _ Ht) as [name ->].
Qed.

(** The run fails fast: when the columns in front of the first unmappable
    one have data types of the table and names without empty segments, and
    so has the table name of that column, the run ends in [log.Fatal] with
    the error of that column, whatever follows it. *)
Theorem writeStructs_fails_at_first_unmappable
    config output os_Create rangeOrder pre bad post :
  Forall (fun cs => DataType cs ∈ Table.all
                    ∧ wellFormed (TableName cs) ∧ wellFormed (ColumnName cs)) pre →
  DataType bad ∉ Table.all →
  wellFormed (TableName bad) →
  writeStructs config output os_Create rangeOrder (pre ++ bad :: post)
    = Fatal (unsupported bad).
Proof.
  intros Hpre Hbad Ht. unfold writeStructs. rewrite loop_app.
  destruct (loop_returns config pre initialState Hpre) as [st ->]. simpl.
  rewrite loopBody_unmappable; [done | done | by right].
Qed.

Lemma writeStructs_fails_at_first_unmappable_witness :
  writeStructs defaults "-" (fun _ => None) listOrder
    ([ column "users" "id" "NO" "int" ]
       ++ column "users" "area" "YES" "polygon"
       :: [ column "users" "a__b" "NO" "json" ])
  = Fatal "No compatible datatype for users.area found".
Proof.
  apply (writeStructs_fails_at_first_unmappable defaults "-" (fun _ => None) listOrder
           [ column "users" "id" "NO" "int" ]
           (column "users" "area" "YES" "polygon")
           [ column "users" "a__b" "NO" "json" ]).
  - constructor; [| constructor]. split_and!.
    + apply (bool_decide_unpack _). vm_compute. exact I.
    + apply (bool_decide_unpack _). vm_compute. exact I.
    + apply (bool_decide_unpack _). vm_compute. exact I.
  - apply (bool_decide_unpack _). vm_compute. exact I.
  - apply (bool_decide_unpack _). vm_compute. exact I.
Defined.



Lemma loop_Fatal config schemas st e :
  loop config schemas st = Fatal e →
  ∃ cs, cs ∈ schemas ∧ (DataType cs ∉ Table.all) ∧ e = unsupported cs.
Proof.
  revert st; induction schemas as [| cs schemas IH]; intros st; simpl; [done |].
  destruct (loopBody config st cs) as [st1 | e1 |] eqn:Hb; simpl; [| | done].
  - intros H. destruct (IH _ H) as (cs' & Hin & Hbad & ->).
    exists cs'. split_and!; [by apply list_elem_of_further | done | done].
  - intros [= ->]. apply loopBody_Fatal in Hb.
    pose proof (goType_error_outside _ _ Hb) as Hbad.
    rewrite (goType_outside_table _ Hbad) in Hb. simpl in Hb.
    exists cs. split_and!; [apply list_elem_of_here | done | congruence].
Qed.

Lemma loop_Panic config schemas st :
  loop config schemas st = Panic →
  ∃ cs, cs ∈ schemas
        ∧ (formatName (TableName cs) = Panic ∨ formatName (ColumnName cs) = Panic).
Proof.
  revert st; induction schemas as [| cs schemas IH]; intros st; simpl; [done |].
  destruct (loopBody config st cs) as [st1 | e1 |] eqn:Hb; simpl; [| done |].
  - intros H. destruct (IH _ H) as (cs' & Hin & Hp).
    exists cs'. split; [by apply list_elem_of_further | done].
  - intros _. exists cs. split; [apply list_elem_of_here |].
    destruct (loopBody_Panic _ _ _ Hb) as [Hn | Hn]; [left | right].
    + apply formatName_empty_segment.
      by destruct (decide (EmptyString ∈ Split (TableName cs) "_"%char)).
    + apply formatName_empty_segment.
      by destruct (decide (EmptyString ∈ Split (ColumnName cs) "_"%char)).
Qed.

(** The two causes of [log.Fatal]: the error is the one of a column of the
    input whose data type is outside the table, or it is the error of
    [os.Create] for a sink other than the standard output. *)
Theorem writeStructs_Fatal_causes
    config output os_Create rangeOrder schemas e :
  writeStructs config output os_Create rangeOrder schemas = Fatal e →
  (∃ cs, cs ∈ schemas ∧ (DataType cs ∉ Table.all) ∧ e = unsupported cs)
  ∨ (output ≠ "-" ∧ os_Create output = Some e
     ∧ ∃ st, loop config schemas initialState = Ok st).
Proof.
  unfold writeStructs.
  destruct (loop config schemas initialState) as [st | e1 |] eqn:Hloop; simpl.
  - rewrite headerSection_length. case_bool_decide as Hout; [| done].
    destruct (os_Create output) as [e1 |] eqn:Hc; [| done].
    intros [= ->]. right. split_and!; [done | done | by exists st].
  - intros [= ->]. left. by apply (loop_Fatal _ _ _ _ Hloop).
  - done.
Qed.

Lemma writeStructs_Fatal_causes_witness :
  (∃ cs, cs ∈ users_orders ∧ (DataType cs ∉ Table.all)
         ∧ "permission denied" = unsupported cs)
  ∨ ("/etc/structs.go" ≠ "-"
     ∧ (fun _ : string => Some "permission denied") "/etc/structs.go"
         = Some "permission denied"
     ∧ ∃ st, loop defaults users_orders initialState = Ok st).
Proof.
  apply (writeStructs_Fatal_causes defaults "/etc/structs.go"
           (fun _ => Some "permission denied") listOrder users_orders
           "permission denied").
  reflexivity.
Defined.

(** The one cause of a panic: [formatName] panics on the table name or on
    the column name of a column of the input. *)
Theorem writeStructs_Panic_cause
    config output os_Create rangeOrder schemas :
  writeStructs config output os_Create rangeOrder schemas = Panic →
  ∃ cs, cs ∈ schemas
        ∧ (formatName (TableName cs) = Panic ∨ formatName (ColumnName cs) = Panic).
Proof.
  unfold writeStructs.
  destruct (loop config schemas initialState) as [st | e1 |] eqn:Hloop; simpl.
  - rewrite headerSection_length.
    case_bool_decide; [destruct (os_Create output) |]; done.
  - done.
  - intros _. by apply (loop_Panic _ _ _ Hloop).
Qed.

Lemma writeStructs_Panic_cause_witness :
  ∃ cs, cs ∈ [ column "users" "id_" "NO" "int" ]
        ∧ (formatName (TableName cs) = Panic ∨ formatName (ColumnName cs) = Panic).
Proof.
  apply (writeStructs_Panic_cause defaults "-" (fun _ => None) listOrder
           [ column "users" "id_" "NO" "int" ]).
  reflexivity.
Defined.

Lemma joinWith_cons (sep p q : string) (ps : list string) :
  joinWith sep (p :: q :: ps) = p +:+ sep +:+ joinWith sep (q :: ps).
Proof. reflexivity. Qed.

Lemma typeBlocks_cons config t g gs :
  Layout.typeBlocks config ((t, g) :: gs)
    = "type " +:+ formatted t +:+ " struct{" +:+ nl
        +:+ Layout.fields config g +:+ Layout.closing config gs.
Proof.
  unfold Layout.typeBlocks, Layout.closing.
  destruct gs as [| g' gs]; rewrite !fmap_cons.
  - unfold Layout.block. cbn [fmap list_fmap joinWith fst snd].
    by rewrite ?append_assoc, ?append_empty_r.
  - rewrite joinWith_cons. unfold Layout.block at 1. cbn [fst snd].
    by rewrite ?append_assoc.
Qed.

Lemma groups_nil schemas : groups schemas = [] → schemas = [].
Proof.
  destruct schemas as [| cs schemas]; [done |]. simpl.
  destruct (groups schemas) as [| [t g] gs]; [done |].
  by case_bool_decide.
Qed.

Lemma groups_head cs schemas :
  ∃ g gs, groups (cs :: schemas) = (TableName cs, g) :: gs.
Proof.
  simpl. destruct (groups schemas) as [| [t g] gs]; [by eexists _, _ |].
  case_bool_decide as Ht; [subst t |]; by eexists _, _.
Qed.

Lemma formatName_nonempty name s : formatName name = Ok s → name ≠ "".
Proof. by intros H ->. Qed.

Lemma chunk_of_table config prev cs chunk :
  chunk_of config prev cs chunk → prev ≠ "" ∨ TableName cs ≠ prev → TableName cs ≠ "".
Proof.
  intros (name & field & gt & imp & _ & _ & Hname & _) Hprev.
  destruct (decide (TableName cs = prev)) as [Heq | Hne].
  - destruct Hprev as [Hp | Hp]; [by rewrite Heq | done].
  - by apply (formatName_nonempty _ _ (Hname Hne)).
Qed.

Lemma chunk_of_text config prev cs chunk :
  chunk_of config prev cs chunk →
  chunk = (if bool_decide (TableName cs = prev) then ""
           else (if bool_decide (prev = "") then "" else "}" +:+ nl +:+ nl)
                  +:+ "type " +:+ formatted (TableName cs) +:+ " struct{" +:+ nl)
            +:+ Layout.field config cs.
Proof.
  intros (name & field & gt & imp & Hgo & Hf & Hname & ->).
  unfold Layout.field, formatted, Spec.opener. rewrite Hgo, Hf. simpl.
  case_bool_decide as Ht; [done |]. by rewrite (Hname Ht).
Qed.

(** Closes an equation between two layouts by cases on the table tests. *)
Ltac layout_cases :=
  unfold Layout.fields, Layout.closing;
  cbn [fmap list_fmap Spec.join foldr];
  repeat match goal with
         | |- context [ bool_decide ?P ] => destruct (bool_decide P)
         end;
  rewrite ?append_assoc, ?append_empty_r; reflexivity.

Lemma closing_cons config x gs :
  Layout.closing config (x :: gs)
    = "}" +:+ nl +:+ nl +:+ Layout.typeBlocks config (x :: gs).
Proof. reflexivity. Qed.

(** The chunks of a run of the loop, closed by the final brace, are laid out
    as the runs of neighbouring columns of one table. *)
Lemma chunks_layout config prev schemas fields :
  chunks config prev schemas fields →
  match schemas with cs :: _ => TableName cs ≠ "" | [] => True end →
  Spec.join fields +:+ "}" = Layout.continuation config prev (groups schemas).
Proof.
  induction 1 as [prev | prev cs schemas chunk rest Hc Hrest IH]; intros Hhead.
  { reflexivity. }
  assert (Hnext : match schemas with c :: _ => TableName c ≠ "" | [] => True end).
  { destruct Hrest as [| ? c ? ? ? Hc' _]; [done |].
    apply (chunk_of_table _ _ _ _ Hc'). by left. }
  specialize (IH Hnext). clear Hnext.
  rewrite (chunk_of_text _ _ _ _ Hc).
  change (Spec.join (?c :: rest)) with (c +:+ Spec.join rest).
  rewrite !append_assoc, IH. clear IH.
  cbn [groups]. destruct (groups schemas) as [| [t g] gs] eqn:Hg.
  - unfold Layout.continuation. rewrite typeBlocks_cons. layout_cases.
  - destruct (decide (TableName cs = t)) as [Heq | Hne].
    + rewrite (bool_decide_eq_true_2 _ Heq). subst t.
      unfold Layout.continuation.
      rewrite (bool_decide_eq_true_2 (TableName cs = TableName cs)) by done.
      rewrite typeBlocks_cons. layout_cases.
    + rewrite (bool_decide_eq_false_2 _ Hne).
      unfold Layout.continuation.
      rewrite (bool_decide_eq_false_2 (t = TableName cs)) by done.
      rewrite (bool_decide_eq_false_2 (TableName cs = "")) by done.
      rewrite !typeBlocks_cons.
      rewrite !closing_cons, !typeBlocks_cons. layout_cases.
Qed.

(** Where the run returns on an input whose first table name is not empty,
    the text is the package clause, the import block and one type block for
    each run of neighbouring columns of one table, in the order of the
    input, with one field line per column; the blocks are separated by an
    empty line and the input is not sorted again. *)
Theorem writeStructs_type_blocks
    config output os_Create rangeOrder cs schemas n text :
  (∀ m, rangeOrder m ≡ₚ (map_to_list m).*1) →
  TableName cs ≠ "" →
  writeStructs config output os_Create rangeOrder (cs :: schemas)
    = Ok (n, Some text) →
  ∃ imports,
    text = Spec.packageClause (PkgName config)
             +:+ Spec.importBlock imports
             +:+ Layout.typeBlocks config (groups (cs :: schemas))
    ∧ NoDup imports
    ∧ (∀ imp, imp ∈ imports ↔
              imp ≠ "" ∧ ∃ c, c ∈ cs :: schemas ∧ (goType c).1.2 = imp).
Proof.
  intros Hperm Hcs H.
  destruct (writeStructs_text _ _ _ _ _ _ _ Hperm H)
    as (imports & fields & [= ->] & Hchunks & Hnodup & Hin).
  exists imports. split_and!; [| done | done].
  rewrite (chunks_layout _ _ _ _ Hchunks Hcs).
  destruct (groups_head cs schemas) as (g & gs & ->).
  unfold Layout.continuation.
  rewrite (bool_decide_eq_false_2 (TableName cs = "")) by done.
  by rewrite (bool_decide_eq_true_2 ("" = "")).
Qed.

Lemma writeStructs_type_blocks_witness :
  ∃ imports,
    users_orders_text
      = Spec.packageClause (PkgName defaults)
          +:+ Spec.importBlock imports
          +:+ Layout.typeBlocks defaults
                (groups (column "users" "id" "NO" "int"
                           :: [ column "users" "name" "YES" "varchar";
                                column "orders" "id" "NO" "int" ]))
    ∧ NoDup imports
    ∧ (∀ imp, imp ∈ imports ↔
              imp ≠ "" ∧ ∃ c, c ∈ column "users" "id" "NO" "int"
                                    :: [ column "users" "name" "YES" "varchar";
                                         column "orders" "id" "NO" "int" ]
                              ∧ (goType c).1.2 = imp).
Proof.
  apply (writeStructs_type_blocks defaults "-" (fun _ => None) listOrder
           (column "users" "id" "NO" "int")
           [ column "users" "name" "YES" "varchar";
             column "orders" "id" "NO" "int" ]
           163 users_orders_text).
  - intros m. reflexivity.
  - discriminate.
  - reflexivity.
Defined.

Lemma chunks_mappable config prev schemas fields :
  chunks config prev schemas fields →
  Forall (fun cs => DataType cs ∈ Table.all) schemas.
Proof.
  induction 1 as [| prev cs schemas chunk rest Hc _ IH]; constructor; [| done].
  destruct Hc as (name & field & gt & imp & Hgo & _).
  by apply goType_success_inside in Hgo.
Qed.

Lemma requiredImportOf_value cs :
  DataType cs ∈ Table.all →
  requiredImportOf cs
    = if bool_decide (DataType cs ∈ Table.temporal_family) then "time"
      else if bool_decide (IsNullable cs = "YES") then "database/sql" else "".
Proof. intros Hd. unfold requiredImportOf. by rewrite (goType_value _ Hd). Qed.

(** The imports of a run that returns, read off the input: time is listed
    exactly when some column has a temporal data type, database/sql exactly
    when some column outside the temporal row has the nullability flag
    "YES", and nothing else is ever listed. *)
Theorem writeStructs_imports_by_input
    config output os_Create rangeOrder schemas n text :
  (∀ m, rangeOrder m ≡ₚ (map_to_list m).*1) →
  writeStructs config output os_Create rangeOrder schemas = Ok (n, Some text) →
  ∃ imports fields,
    text = Spec.packageClause (PkgName config)
             +:+ Spec.importBlock imports
             +:+ Spec.join fields +:+ "}"
    ∧ chunks config "" schemas fields
    ∧ NoDup imports
    ∧ ("time" ∈ imports ↔
       ∃ cs, cs ∈ schemas ∧ DataType cs ∈ Table.temporal_family)
    ∧ ("database/sql" ∈ imports ↔
       ∃ cs, cs ∈ schemas ∧ IsNullable cs = "YES"
             ∧ (DataType cs ∉ Table.temporal_family))
    ∧ (∀ imp, imp ∈ imports → imp = "time" ∨ imp = "database/sql").
Proof.
  intros Hperm H.
  destruct (writeStructs_text _ _ _ _ _ _ _ Hperm H)
    as (imports & fields & [= ->] & Hchunks & Hnodup & Hin).
  pose proof (chunks_mappable _ _ _ _ Hchunks) as Hmap.
  rewrite Forall_forall in Hmap.
  exists imports, fields. split_and!; [done | done | done | | |].
  - rewrite Hin. split.
    + intros (_ & cs & Hcs & Himp). exists cs. split; [done |].
      rewrite (requiredImportOf_value _ (Hmap _ Hcs)) in Himp.
      repeat case_bool_decide; done.
    + intros (cs & Hcs & Ht). split; [done |]. exists cs. split; [done |].
      rewrite (requiredImportOf_value _ (Hmap _ Hcs)).
      by rewrite bool_decide_eq_true_2.
  - rewrite Hin. split.
    + intros (_ & cs & Hcs & Himp). exists cs. split; [done |].
      rewrite (requiredImportOf_value _ (Hmap _ Hcs)) in Himp.
      repeat case_bool_decide; done.
    + intros (cs & Hcs & Hn & Ht). split; [done |]. exists cs. split; [done |].
      rewrite (requiredImportOf_value _ (Hmap _ Hcs)).
      by rewrite (bool_decide_eq_false_2 _ Ht), (bool_decide_eq_true_2 _ Hn).
  - intros imp (Hne & cs & Hcs & Himp)%Hin.
    rewrite (requiredImportOf_value _ (Hmap _ Hcs)) in Himp.
    repeat case_bool_decide; subst imp; auto. done.
Qed.

Lemma writeStructs_imports_by_input_witness :
  ∃ imports fields,
    users_orders_text
      = Spec.packageClause (PkgName defaults)
          +:+ Spec.importBlock imports
          +:+ Spec.join fields +:+ "}"
    ∧ chunks defaults "" users_orders fields
    ∧ NoDup imports
    ∧ ("time" ∈ imports ↔
       ∃ cs, cs ∈ users_orders ∧ DataType cs ∈ Table.temporal_family)
    ∧ ("database/sql" ∈ imports ↔
       ∃ cs, cs ∈ users_orders ∧ IsNullable cs = "YES"
             ∧ (DataType cs ∉ Table.temporal_family))
    ∧ (∀ imp, imp ∈ imports → imp = "time" ∨ imp = "database/sql").
Proof.
  apply (writeStructs_imports_by_input defaults "-" (fun _ => None) listOrder
           users_orders 163 users_orders_text).
  - intros m. reflexivity.
  - reflexivity.
Defined.

Lemma join_length_perm (l1 l2 : list string) :
  l1 ≡ₚ l2 → String.length (Spec.join l1) = String.length (Spec.join l2).
Proof.
  induction 1 as [| x l1 l2 _ IH | x y l | l1 l2 l3 _ IH1 _ IH2]; simpl.
  - done.
  - by rewrite !length_append, IH.
  - rewrite !length_append. lia.
  - by rewrite IH1.
Qed.

Lemma importBlock_length_perm (l1 l2 : list string) :
  l1 ≡ₚ l2 →
  String.length (Spec.importBlock l1) = String.length (Spec.importBlock l2).
Proof.
  intros Hp. destruct l1 as [| a l1], l2 as [| b l2].
  - done.
  - by apply Permutation_nil_cons in Hp.
  - symmetry in Hp. by apply Permutation_nil_cons in Hp.
  - unfold Spec.importBlock. rewrite !length_append.
    by rewrite (join_length_perm _ _ (fmap_Permutation Spec.importLine _ _ Hp)).
Qed.

(** The order in which the map of imports is visited does not change the
    outcome beyond the order of the import lines: a run that returns under
    one order returns under every other, with the same length. *)
Theorem writeStructs_length_any_order
    config output os_Create order1 order2 schemas n written1 :
  (∀ m, order1 m ≡ₚ (map_to_list m).*1) →
  (∀ m, order2 m ≡ₚ (map_to_list m).*1) →
  writeStructs config output os_Create order1 schemas = Ok (n, written1) →
  ∃ written2,
    writeStructs config output os_Create order2 schemas = Ok (n, written2).
Proof.
  intros H1 H2 H.
  destruct (writeStructs_Ok _ _ _ _ _ _ _ H) as (st & text & Hloop & -> & -> & ->).
  assert (Hlen : String.length (headerSection config order2 (neededImports st)
                                  +:+ buffer st +:+ "}")
                 = String.length (headerSection config order1 (neededImports st)
                                    +:+ buffer st +:+ "}")).
  { rewrite !headerSection_spec by done. rewrite !length_append.
    rewrite (importBlock_length_perm (order2 (neededImports st))
               (order1 (neededImports st))); [done |].
    by rewrite H1, H2. }
  unfold writeStructs in *. rewrite Hloop in *. simpl in *.
  rewrite headerSection_length in *.
  case_bool_decide; [destruct (os_Create output); [done |] |];
    eexists; by rewrite Hlen.
Qed.

Lemma writeStructs_length_any_order_witness :
  ∃ written2,
    writeStructs defaults "-" (fun _ => None) (fun m => reverse (listOrder m))
      [ column "t" "a" "YES" "date"; column "t" "b" "YES" "int" ]
    = Ok (119, written2).
Proof.
  apply (writeStructs_length_any_order defaults "-" (fun _ => None) listOrder
           (fun m => reverse (listOrder m))
           [ column "t" "a" "YES" "date"; column "t" "b" "YES" "int" ] 119
           (match writeStructs defaults "-" (fun _ => None) listOrder
                    [ column "t" "a" "YES" "date"; column "t" "b" "YES" "int" ]
            with Ok (_, w) => w | _ => None end)).
  - intros m. reflexivity.
  - intros m. apply reverse_Permutation.
  - reflexivity.
Defined.

(** ** The program *)


